(** * css-beziers: cubic Bezier timing functions

    A shallow embedding of [src/css-beziers.js] (the [CubicBezier] object with
    flat control coordinates [_p1x], [_p1y], [_p2x], [_p2y]) and the
    properties of evaluation, inversion and subdivision.  The earlier drafts
    kept beside it (control points stored as [{x, y}] pairs, [pointForT],
    [divideAt]) are unfinished and are not embedded.

    JavaScript numbers are IEEE 754 binary64 values.  The functions are
    written once over an interface [Number] of the arithmetic the source
    uses, and read at two instances:
    - [binary64]: Rocq's primitive floats, operation for operation what the
      JavaScript engine computes (rounding, signed zeros, NaN, infinities);
    - [exact]: the rationals, the arithmetic the algebraic identities of
      De Casteljau's construction are about. *)

From Stdlib Require Import Bool List String ZArith Lia.
From Stdlib Require Import QArith Qabs Lqa.
From Stdlib Require Import Floats.
Import ListNotations.

Set Implicit Arguments.
Local Open Scope string_scope.

(** ** Numbers *)

(** The literals and operators of the source.  [lt a b] is [a < b] (and
    [b > a]), [le a b] is [a <= b] (and [b >= a]), [strict_eq] is [===]. *)
Class Number (num : Type) : Type := {
  lit_0 : num;
  lit_1 : num;
  lit_2 : num;
  lit_3 : num;
  lit_0_5 : num;
  lit_1e_6 : num;
  add : num -> num -> num;
  sub : num -> num -> num;
  mul : num -> num -> num;
  div : num -> num -> num;
  Math_abs : num -> num;
  lt : num -> num -> bool;
  le : num -> num -> bool;
  strict_eq : num -> num -> bool;
  isFinite : num -> bool
}.

Declare Scope js_scope.
Delimit Scope js_scope with js.
Notation "x + y" := (add x y) : js_scope.
Notation "x - y" := (sub x y) : js_scope.
Notation "x * y" := (mul x y) : js_scope.
Notation "x / y" := (div x y) : js_scope.
Notation "x <? y" := (lt x y) (at level 70) : js_scope.
Notation "x >? y" := (lt y x) (at level 70) : js_scope.
Notation "x <=? y" := (le x y) (at level 70) : js_scope.
Notation "x >=? y" := (le y x) (at level 70) : js_scope.
Notation "x === y" := (strict_eq x y) (at level 70) : js_scope.

(** ** Exceptions *)

(** [throw new RangeError(msg)]: the message names the parameter and, where
    the source appends it ("Got " + v), the value received. *)
Inductive exn (num : Type) : Type :=
| RangeError (param : string) (got : option num).

Inductive result (num A : Type) : Type :=
| Ok (a : A)
| Throw (e : exn num).

Arguments Ok {num A} a.
Arguments Throw {num A} e.

Definition bind {num A B} (m : result num A) (k : A -> result num B)
  : result num B :=
  match m with
  | Ok a => k a
  | Throw e => Throw e
  end.

Notation "x <- m ;; k" := (bind m (fun x => k))
  (at level 61, m at next level, right associativity).

(** ** The curve object *)

Record Curve (num : Type) : Type := mkCurve {
  _p1x : num;
  _p1y : num;
  _p2x : num;
  _p2y : num
}.

(** The result of a [while] loop that is given [fuel] iterations. *)
Inductive loop (St R : Type) : Type :=
| Continue (s : St)
| Return (r : R).

Arguments Continue {St R} s.
Arguments Return {St R} r.

Section Bezier.

Context {num : Type} {N : Number num}.
Local Open Scope js_scope.

Local Notation "0" := lit_0 : js_scope.
Local Notation "1" := lit_1 : js_scope.
Local Notation "2" := lit_2 : js_scope.
Local Notation "3" := lit_3 : js_scope.

(** [p >= 0 && p <= 1] *)
Definition in_unit (p : num) : bool := (p >=? 0) && (p <=? 1).

(** [function CubicBezier(p1x, p1y, p2x, p2y)] *)
Definition CubicBezier (p1x p1y p2x p2y : num) : result num (Curve num) :=
  if negb (in_unit p1x) then Throw (RangeError "p1x" (Some p1x))
  else if negb (in_unit p1y) then Throw (RangeError "p1y" (Some p1y))
  else if negb (in_unit p2x) then Throw (RangeError "p2x" (Some p2x))
  else if negb (in_unit p2y) then Throw (RangeError "p2y" (Some p2y))
  else Ok (mkCurve p1x p1y p2x p2y).

Definition _getCoordinateForT (t p1 p2 : num) : num :=
  let c := 3 * p1 in
  let b := 3 * (p2 - p1) - c in
  let a := 1 - c - b in
  ((a * t + b) * t + c) * t.

Definition _getCoordinateDerivateForT (t p1 p2 : num) : num :=
  let c := 3 * p1 in
  let b := 3 * (p2 - p1) - c in
  let a := 1 - c - b in
  (3 * a * t + 2 * b) * t + c.

(** *** Inversion: [_getTForCoordinate] *)

Section Inversion.

Variables (c p1 p2 epsilon : num).

(** The [for] loop of Newton's method with [n] iterations left
    ([n = 8 - i]); [Return t2] is the [return] inside the loop, [Continue]
    leaves the loop (by [break] or because [i] reached 8). *)
Fixpoint newton (n : nat) (t2 : num) : loop unit num :=
  match n with
  | O => Continue tt
  | S n' =>
      let c2 := _getCoordinateForT t2 p1 p2 - c in
      if Math_abs c2 <? epsilon then Return t2
      else
        let d2 := _getCoordinateDerivateForT t2 p1 p2 in
        if Math_abs d2 <? lit_1e_6 then Continue tt
        else newton n' (t2 - c2 / d2)
  end.

(** The variables [t0], [t1], [t2] of the bisection loop. *)
Definition bisection_state : Type := (num * num * num)%type.

(** One evaluation of the [while (t0 < t1)] test followed, when it holds,
    by the loop body; [Return] is either the [return t2] of the body or
    the one after the loop. *)
Definition bisection_step (s : bisection_state) : loop bisection_state num :=
  let '(t0, t1, t2) := s in
  if t0 <? t1 then
    let c2 := _getCoordinateForT t2 p1 p2 in
    if Math_abs (c2 - c) <? epsilon then Return t2
    else
      let '(t0', t1') := if c >? c2 then (t2, t1) else (t0, t2) in
      Continue (t0', t1', (t1' - t0') * lit_0_5 + t0')
  else Return t2.

(** The [while] loop; [None] when [fuel] steps did not leave it. *)
Fixpoint bisection (fuel : nat) (s : bisection_state) : option num :=
  match fuel with
  | O => None
  | S fuel' =>
      match bisection_step s with
      | Return t => Some t
      | Continue s' => bisection fuel' s'
      end
  end.

(** The code after the Newton loop. *)
Definition fallback (fuel : nat) : option num :=
  let t2 := c in
  let t0 := 0 in
  let t1 := 1 in
  if t2 <? t0 then Some t0
  else if t2 >? t1 then Some t1
  else bisection fuel (t0, t1, t2).

Definition _getTForCoordinate (fuel : nat) : option (result num num) :=
  if negb (isFinite epsilon) || (epsilon <=? 0) then
    Some (Throw (RangeError "epsilon" None))
  else
    match newton 8 c with
    | Return t2 => Some (Ok t2)
    | Continue _ => option_map Ok (fallback fuel)
    end.

End Inversion.

(** *** Evaluation *)

Definition getPointForT (this : Curve num) (t : num) : result num (num * num) :=
  if (t === 0) || (t === 1) then Ok (t, t)
  else if negb (t >? 0) || negb (t <? 1) then Throw (RangeError "t" (Some t))
  else Ok (_getCoordinateForT t (_p1x this) (_p2x this),
           _getCoordinateForT t (_p1y this) (_p2y this)).

Definition getTforX (this : Curve num) (x epsilon : num) (fuel : nat) :=
  _getTForCoordinate x (_p1x this) (_p2x this) epsilon fuel.

Definition getTforY (this : Curve num) (y epsilon : num) (fuel : nat) :=
  _getTForCoordinate y (_p1y this) (_p2y this) epsilon fuel.

(** *** Subdivision *)

(** The array [[i0x, i0y, i1x, i1y, i2x, i2y, j0x, j0y, j1x, j1y, kx, ky]]. *)
Definition _getAuxPoints (this : Curve num) (t : num) : result num (list num) :=
  if negb (t >? 0) || negb (t <? 1) then Throw (RangeError "t" None)
  else
    let p1x := _p1x this in let p1y := _p1y this in
    let p2x := _p2x this in let p2y := _p2y this in
    let i0x := t * p1x in let i0y := t * p1y in
    let i1x := p1x + t * (p2x - p1x) in let i1y := p1y + t * (p2y - p1y) in
    let i2x := p2x + t * (1 - p2x) in let i2y := p2y + t * (1 - p2y) in
    let j0x := i0x + t * (i1x - i0x) in let j0y := i0y + t * (i1y - i0y) in
    let j1x := i1x + t * (i2x - i1x) in let j1y := i1y + t * (i2y - i1y) in
    let kx := j0x + t * (j1x - j0x) in let ky := j0y + t * (j1y - j0y) in
    Ok [i0x; i0y; i1x; i1y; i2x; i2y; j0x; j0y; j1x; j1y; kx; ky].

(** [points[i]] on the twelve-element array above. *)
Definition at_index (points : list num) (i : nat) : num := nth i points 0.

Definition clone (this : Curve num) : result num (Curve num) :=
  CubicBezier (_p1x this) (_p1y this) (_p2x this) (_p2y this).

(** [CubicBezier.linear] as it stands after the last assignment to it. *)
Definition linear : result num (Curve num) := CubicBezier 0 0 1 1.

(** The array [curves] of [divideAtT], of which only the elements 0 and 1
    are read: [curves[i] = v] with a number [i] as the key. *)
Definition curves_set (i : num) (v : Curve num)
  (curves : option (Curve num) * option (Curve num)) :=
  if i === 0 then (Some v, snd curves)
  else if i === 1 then (fst curves, Some v)
  else curves.

Definition divideAtT (this : Curve num) (t : num)
  : result num (option (Curve num) * option (Curve num)) :=
  if (t <? 0) || (t >? 1) then Throw (RangeError "t" (Some t))
  else if (t === 0) || (t === 1) then
    let curves := (None, None) in
    l <- linear ;;
    let curves := curves_set t l curves in
    k <- clone this ;;
    let curves := curves_set (1 - t) k curves in
    Ok curves
  else
    points <- _getAuxPoints this t ;;
    let kx := at_index points 10 in let ky := at_index points 11 in
    let leftP1x := at_index points 0 / kx in
    let leftP1y := at_index points 1 / ky in
    let leftP2x := at_index points 6 / kx in
    let leftP2y := at_index points 7 / ky in
    let rightP1x := (at_index points 8 - kx) / (1 - kx) in
    let rightP1y := (at_index points 9 - ky) / (1 - ky) in
    let rightP2x := (at_index points 4 - kx) / (1 - kx) in
    let rightP2y := (at_index points 5 - ky) / (1 - ky) in
    left <- CubicBezier leftP1x leftP1y leftP2x leftP2y ;;
    right <- CubicBezier rightP1x rightP1y rightP2x rightP2y ;;
    Ok (Some left, Some right).

Definition divideAtX (this : Curve num) (x epsilon : num) (fuel : nat)
  : option (result num (option (Curve num) * option (Curve num))) :=
  if (x <? 0) || (x >? 1) then Some (Throw (RangeError "x" (Some x)))
  else
    match getTforX this x epsilon fuel with
    | None => None
    | Some (Throw e) => Some (Throw e)
    | Some (Ok t) => Some (divideAtT this t)
    end.

Definition divideAtY (this : Curve num) (y epsilon : num) (fuel : nat)
  : option (result num (option (Curve num) * option (Curve num))) :=
  if (y <? 0) || (y >? 1) then Some (Throw (RangeError "y" (Some y)))
  else
    match getTforY this y epsilon fuel with
    | None => None
    | Some (Throw e) => Some (Throw e)
    | Some (Ok t) => Some (divideAtT this t)
    end.

(** The invariant the constructor establishes. *)
Definition valid (this : Curve num) : Prop :=
  in_unit (_p1x this) = true /\ in_unit (_p1y this) = true /\
  in_unit (_p2x this) = true /\ in_unit (_p2y this) = true.

End Bezier.

(** ** The two arithmetics *)

(** IEEE 754 binary64, the numbers of the source. *)
#[global] Instance binary64 : Number float := {|
  lit_0 := 0%float;
  lit_1 := 1%float;
  lit_2 := 2%float;
  lit_3 := 3%float;
  lit_0_5 := 0.5%float;
  lit_1e_6 := 0x1.0c6f7a0b5ed8dp-20%float; (* the binary64 value of 1e-6 *)
  add := PrimFloat.add;
  sub := PrimFloat.sub;
  mul := PrimFloat.mul;
  div := PrimFloat.div;
  Math_abs := PrimFloat.abs;
  lt := PrimFloat.ltb;
  le := PrimFloat.leb;
  strict_eq := PrimFloat.eqb;
  isFinite := fun x => negb (PrimFloat.is_nan x || PrimFloat.is_infinity x)
|}.

(** Exact rational arithmetic.  [Qdiv] by zero is 0, unlike the source's
    division; nothing is proved at this instance about a quotient. *)
#[global] Instance exact : Number Q := {|
  lit_0 := 0%Q;
  lit_1 := 1%Q;
  lit_2 := 2%Q;
  lit_3 := 3%Q;
  lit_0_5 := (1 # 2)%Q;
  lit_1e_6 := (1 # 1000000)%Q;
  add := Qplus;
  sub := Qminus;
  mul := Qmult;
  div := Qdiv;
  Math_abs := Qabs;
  lt := fun x y => negb (Qle_bool y x);
  le := Qle_bool;
  strict_eq := Qeq_bool;
  isFinite := fun _ => true
|}.

Unset Implicit Arguments.

(** ** Facts about binary64 comparisons and division

    The primitive operations are specified by [Prim2SF] into [spec_float];
    the facts below are read off [SFcompare] and [SFdiv]. *)

Module B64.

Local Open Scope float_scope.

Lemma SFcompare_swap x y :
  SFcompare y x = option_map CompOpp (SFcompare x y).
Proof.
  destruct x as [sx|sx| |sx mx ex], y as [sy|sy| |sy my ey]; simpl;
    try reflexivity; try (destruct sx; reflexivity);
    try (destruct sy; reflexivity); try (destruct sx, sy; reflexivity).
  destruct sx, sy; try reflexivity; simpl;
    rewrite (Z.compare_antisym ey ex); destruct (ey ?= ex)%Z; simpl;
    try reflexivity;
    rewrite (ZC4 my mx); destruct (Pos.compare_cont Eq mx my); reflexivity.
Qed.

(** The mantissa of [1], kept folded so that [simpl] leaves it alone. *)
Definition mantissa_1 : positive := 4503599627370496.

Lemma Prim2SF_0 : Prim2SF 0 = S754_zero false.
Proof. reflexivity. Qed.

Lemma Prim2SF_1 : Prim2SF 1 = S754_finite false mantissa_1 (-52).
Proof. vm_compute. reflexivity. Qed.

Lemma ltb_compare x y :
  (x <? y) = true <-> SFcompare (Prim2SF x) (Prim2SF y) = Some Lt.
Proof.
  rewrite FloatAxioms.ltb_spec. unfold SFltb.
  destruct (SFcompare _ _) as [[]|]; split; congruence.
Qed.

Lemma eqb_compare x y :
  (x =? y) = true <-> SFcompare (Prim2SF x) (Prim2SF y) = Some Eq.
Proof.
  rewrite FloatAxioms.eqb_spec. unfold SFeqb.
  destruct (SFcompare _ _) as [[]|]; split; congruence.
Qed.

Lemma leb_compare x y :
  (x <=? y) = true <->
  SFcompare (Prim2SF x) (Prim2SF y) = Some Lt \/
  SFcompare (Prim2SF x) (Prim2SF y) = Some Eq.
Proof.
  rewrite FloatAxioms.leb_spec. unfold SFleb.
  destruct (SFcompare _ _) as [[]|]; split;
    try congruence; intuition congruence.
Qed.

Lemma ltb_leb x y : (x <? y) = true -> (x <=? y) = true.
Proof. rewrite ltb_compare, leb_compare. auto. Qed.

Lemma ltb_not_eqb x y : (x <? y) = true -> (x =? y) = false.
Proof.
  rewrite ltb_compare. intros H.
  destruct (x =? y) eqn:E; [|reflexivity].
  apply eqb_compare in E. congruence.
Qed.

Lemma ltb_not_eqb_sym x y : (x <? y) = true -> (y =? x) = false.
Proof.
  rewrite ltb_compare. intros H.
  destruct (y =? x) eqn:E; [|reflexivity].
  apply eqb_compare in E. rewrite SFcompare_swap, H in E. discriminate.
Qed.

Lemma eqb_leb x y : (x =? y) = true -> (x <=? y) = true /\ (y <=? x) = true.
Proof.
  rewrite eqb_compare, !leb_compare. intros H.
  rewrite (SFcompare_swap (Prim2SF x) (Prim2SF y)), H. simpl. auto.
Qed.

Lemma leb_not_eqb_ltb x y :
  (x <=? y) = true -> (y =? x) = false -> (x <? y) = true.
Proof.
  rewrite leb_compare, ltb_compare. intros [H|H] E; [exact H|].
  assert (E' : (y =? x) = true)
    by (apply eqb_compare; rewrite SFcompare_swap, H; reflexivity).
  congruence.
Qed.

Lemma eqb_0_zero x : (x =? 0) = true -> exists s, Prim2SF x = S754_zero s.
Proof.
  rewrite eqb_compare, Prim2SF_0.
  destruct (Prim2SF x) as [s|s| |s m e]; simpl; intros H; try discriminate;
    [eauto | destruct s; discriminate | destruct s; discriminate].
Qed.

Lemma eqb_1_one x : (x =? 1) = true -> x = 1.
Proof.
  rewrite eqb_compare. intros H. apply Prim2SF_inj.
  rewrite Prim2SF_1 in H |- *.
  generalize dependent mantissa_1. intros m1 H.
  destruct (Prim2SF x) as [s|s| |s m e]; simpl in H; try discriminate;
    try (destruct s; discriminate).
  destruct s; try discriminate.
  destruct (e ?= -52)%Z eqn:E; try discriminate.
  apply Z.compare_eq in E. injection H as H. apply Pcompare_Eq_eq in H.
  congruence.
Qed.

End B64.

(** ** Construction and validation *)

Section Construction.

Context {num : Type} {N : Number num}.

Lemma CubicBezier_valid p1x p1y p2x p2y :
  in_unit p1x = true -> in_unit p1y = true ->
  in_unit p2x = true -> in_unit p2y = true ->
  CubicBezier p1x p1y p2x p2y = Ok (mkCurve p1x p1y p2x p2y).
Proof.
  intros H1 H2 H3 H4. unfold CubicBezier.
  rewrite H1, H2, H3, H4. reflexivity.
Qed.

(** What the constructor does, by cases on the four range tests. *)
Lemma CubicBezier_cases p1x p1y p2x p2y :
  (CubicBezier p1x p1y p2x p2y = Ok (mkCurve p1x p1y p2x p2y) /\
   in_unit p1x = true /\ in_unit p1y = true /\
   in_unit p2x = true /\ in_unit p2y = true) \/
  (exists p v,
     CubicBezier p1x p1y p2x p2y = Throw (RangeError p (Some v)) /\
     In (p, v) [("p1x", p1x); ("p1y", p1y); ("p2x", p2x); ("p2y", p2y)] /\
     in_unit v = false).
Proof.
  unfold CubicBezier.
  destruct (in_unit p1x) eqn:H1; simpl;
    [|right; exists "p1x", p1x; simpl; auto 10].
  destruct (in_unit p1y) eqn:H2; simpl;
    [|right; exists "p1y", p1y; simpl; auto 10].
  destruct (in_unit p2x) eqn:H3; simpl;
    [|right; exists "p2x", p2x; simpl; auto 10].
  destruct (in_unit p2y) eqn:H4; simpl;
    [|right; exists "p2y", p2y; simpl; auto 10].
  left. auto.
Qed.

(** One argument outside [0,1] is enough for the constructor to throw. *)
Lemma CubicBezier_rejects p1x p1y p2x p2y :
  in_unit p1x && in_unit p1y && in_unit p2x && in_unit p2y = false ->
  exists p v,
    CubicBezier p1x p1y p2x p2y = Throw (RangeError p (Some v)) /\
    In (p, v) [("p1x", p1x); ("p1y", p1y); ("p2x", p2x); ("p2y", p2y)] /\
    in_unit v = false.
Proof.
  intros H.
  destruct (CubicBezier_cases p1x p1y p2x p2y)
    as [(_ & H1 & H2 & H3 & H4)|Hthrow]; [|exact Hthrow].
  rewrite H1, H2, H3, H4 in H. discriminate.
Qed.

Lemma clone_valid (this : Curve num) : valid this -> clone this = Ok this.
Proof.
  destruct this as [a b c d]. intros (H1 & H2 & H3 & H4). simpl in *.
  unfold clone. simpl. apply CubicBezier_valid; assumption.
Qed.

(** C5. The constructor returns a curve exactly when each of [p1x], [p1y],
    [p2x], [p2y] passes the test [p >= 0 && p <= 1]; the curve then holds the
    four arguments.  When it throws, the exception is a [RangeError] that
    names one of the four parameters together with the value received, and
    that value fails the test. *)
Theorem CubicBezier_contract (p1x p1y p2x p2y : num) :
  ((exists this, CubicBezier p1x p1y p2x p2y = Ok this) <->
   in_unit p1x && in_unit p1y && in_unit p2x && in_unit p2y = true) /\
  (forall this, CubicBezier p1x p1y p2x p2y = Ok this ->
     this = mkCurve p1x p1y p2x p2y) /\
  (forall e, CubicBezier p1x p1y p2x p2y = Throw e ->
     exists p v, e = RangeError p (Some v) /\
       In (p, v) [("p1x", p1x); ("p1y", p1y); ("p2x", p2x); ("p2y", p2y)] /\
       in_unit v = false).
Proof.
  destruct (CubicBezier_cases p1x p1y p2x p2y)
    as [(E & H1 & H2 & H3 & H4)|(p & v & E & Hin & Hv)]; rewrite E.
  - repeat split.
    + intros _. rewrite H1, H2, H3, H4. reflexivity.
    + intros _. eexists. reflexivity.
    + intros this H. congruence.
    + intros e H. discriminate.
  - repeat split.
    + intros [this H]. discriminate.
    + intros H. exfalso.
      apply andb_prop in H as [H H4]. apply andb_prop in H as [H H3].
      apply andb_prop in H as [H1 H2].
      simpl in Hin.
      destruct Hin as [Hin|[Hin|[Hin|[Hin|[]]]]]; inversion Hin; subst;
        congruence.
    + intros this H. discriminate.
    + intros e H. injection H as <-. eauto.
Qed.

End Construction.

(** ** Inversion *)

Section InversionFacts.

Context {num : Type} {N : Number num}.
Local Open Scope js_scope.

Variables (c p1 p2 epsilon : num).

Lemma _getTForCoordinate_guard fuel :
  negb (isFinite epsilon) || (epsilon <=? lit_0) = true ->
  _getTForCoordinate c p1 p2 epsilon fuel =
    Some (Throw (RangeError "epsilon" None)).
Proof. intros H. unfold _getTForCoordinate. rewrite H. reflexivity. Qed.

Lemma _getTForCoordinate_run fuel :
  negb (isFinite epsilon) || (epsilon <=? lit_0) = false ->
  _getTForCoordinate c p1 p2 epsilon fuel =
    match newton c p1 p2 epsilon 8 c with
    | Return t2 => Some (Ok t2)
    | Continue _ => option_map Ok (fallback c p1 p2 epsilon fuel)
    end.
Proof. intros H. unfold _getTForCoordinate. rewrite H. reflexivity. Qed.

(** [_getTForCoordinate] throws exactly when [epsilon] is not finite or is
    [<= 0], whatever the number of loop iterations it is given. *)
Lemma _getTForCoordinate_throws_iff fuel :
  (exists e, _getTForCoordinate c p1 p2 epsilon fuel = Some (Throw e)) <->
  (isFinite epsilon = false \/ (epsilon <=? lit_0) = true).
Proof.
  destruct (negb (isFinite epsilon) || (epsilon <=? lit_0)) eqn:G.
  - rewrite (_getTForCoordinate_guard _ G). split; [intros _|eauto].
    apply orb_true_iff in G as [G|G]; [left|right; exact G].
    now apply negb_true_iff in G.
  - rewrite (_getTForCoordinate_run _ G).
    apply orb_false_iff in G as [G1 G2]. apply negb_false_iff in G1.
    split; [|intros [H|H]; congruence].
    intros [e H]. exfalso.
    destruct (newton c p1 p2 epsilon 8 c); [|discriminate].
    destruct (fallback c p1 p2 epsilon fuel); discriminate.
Qed.

End InversionFacts.

(** ** The curve in binary64 arithmetic *)

Module Binary64.

Import B64.
Local Open Scope float_scope.
Set Warnings "-inexact-float".

(** Reads the interface's operations as the primitive ones. *)
Ltac prim :=
  cbn [lit_0 lit_1 lit_2 lit_3 lit_0_5 lit_1e_6 add sub mul div Math_abs
       lt le strict_eq isFinite binary64] in *.

(** The presets, with the literals of the source. *)
Definition ease : result float (Curve float) := CubicBezier 0.25 0.1 0.25 1.0.
Definition easeIn : result float (Curve float) := CubicBezier 0.42 0 1.0 1.0.
Definition easeOut : result float (Curve float) := CubicBezier 0 0 0.58 1.0.
Definition easeInOut : result float (Curve float) :=
  CubicBezier 0.42 0 0.58 1.0.

Lemma in_unit_eq (t : float) : in_unit t = (0 <=? t) && (t <=? 1).
Proof. reflexivity. Qed.

Lemma zero_in_unit t : (t =? 0) = true -> in_unit t = true.
Proof.
  intros H. rewrite in_unit_eq.
  destruct (eqb_leb _ _ H) as [_ H0]. rewrite H0. simpl.
  apply eqb_0_zero in H as [s H].
  rewrite FloatAxioms.leb_spec, H, Prim2SF_1. reflexivity.
Qed.

Lemma one_in_unit t : (t =? 1) = true -> in_unit t = true.
Proof. intros H. apply eqb_1_one in H. subst t. reflexivity. Qed.

Lemma interior_in_unit t :
  (0 <? t) = true -> (t <? 1) = true -> in_unit t = true.
Proof.
  intros H0 H1. rewrite in_unit_eq.
  rewrite (ltb_leb _ _ H0), (ltb_leb _ _ H1). reflexivity.
Qed.

(** The three ways through the tests of [getPointForT]. *)
Lemma interior_tests t :
  (0 <? t) = true -> (t <? 1) = true ->
  (t =? 0) = false /\ (t =? 1) = false.
Proof.
  intros H0 H1. split.
  - apply ltb_not_eqb_sym. exact H0.
  - apply ltb_not_eqb. exact H1.
Qed.

Lemma in_unit_cases t :
  in_unit t = true ->
  (t =? 0) = true \/ (t =? 1) = true \/
  ((t =? 0) = false /\ (t =? 1) = false /\
   (0 <? t) = true /\ (t <? 1) = true).
Proof.
  rewrite in_unit_eq. intros H. apply andb_prop in H as [H0 H1].
  destruct (t =? 0) eqn:E0; [auto|].
  destruct (t =? 1) eqn:E1; [auto|].
  right. right. repeat split.
  - apply leb_not_eqb_ltb; assumption.
  - apply leb_not_eqb_ltb; [assumption|].
    destruct (1 =? t) eqn:E; [|reflexivity].
    apply eqb_compare in E.
    assert (E' : (t =? 1) = true)
      by (apply eqb_compare; rewrite SFcompare_swap, E; reflexivity).
    congruence.
Qed.

Lemma outside_tests t :
  in_unit t = false ->
  (t =? 0) = false /\ (t =? 1) = false /\
  negb (0 <? t) || negb (t <? 1) = true.
Proof.
  intros H. repeat split.
  - destruct (t =? 0) eqn:E; [|reflexivity].
    rewrite (zero_in_unit _ E) in H. discriminate.
  - destruct (t =? 1) eqn:E; [|reflexivity].
    rewrite (one_in_unit _ E) in H. discriminate.
  - destruct (0 <? t) eqn:H0; [|reflexivity].
    destruct (t <? 1) eqn:H1; [|reflexivity].
    rewrite (interior_in_unit _ H0 H1) in H. discriminate.
Qed.

(** ** Evaluation *)

Lemma getPointForT_interior (this : Curve float) (t : float) :
  (0 <? t) = true -> (t <? 1) = true ->
  getPointForT this t =
    Ok (_getCoordinateForT t (_p1x this) (_p2x this),
        _getCoordinateForT t (_p1y this) (_p2y this)).
Proof.
  intros H0 H1. destruct (interior_tests _ H0 H1) as [E0 E1].
  unfold getPointForT. prim. rewrite E0, E1, H0, H1. reflexivity.
Qed.

(** C1. For [0 < t < 1], [getPointForT] returns on each axis the cubic in
    Horner form [((a*t + b)*t + c)*t] with [c = 3*p1], [b = 3*(p2 - p1) - c]
    and [a = 1 - c - b] computed from that axis's control coordinates.  (It
    does so for any stored coordinates, in particular for those of a valid
    curve.) *)
Theorem getPointForT_horner (this : Curve float) (t : float) :
  (0 <? t) = true -> (t <? 1) = true ->
  getPointForT this t =
    Ok (let c := 3 * _p1x this in
        let b := 3 * (_p2x this - _p1x this) - c in
        let a := 1 - c - b in
        ((a * t + b) * t + c) * t,
        let c := 3 * _p1y this in
        let b := 3 * (_p2y this - _p1y this) - c in
        let a := 1 - c - b in
        ((a * t + b) * t + c) * t).
Proof.
  intros H0 H1. rewrite (getPointForT_interior this t H0 H1).
  unfold _getCoordinateForT. prim. reflexivity.
Qed.

Lemma getPointForT_horner_witness :
  getPointForT (mkCurve 0.25 0.1 0.25 1.0) 0.5
  = Ok (0.3125, 0.53750000000000009).
Proof.
  exact (getPointForT_horner (mkCurve 0.25 0.1 0.25 1.0) 0.5
           eq_refl eq_refl).
Defined.

(** C7. [getPointForT(0)] is [(0, 0)] and [getPointForT(1)] is [(1, 1)] for
    every curve, and for every [t] that fails [0 <= t && t <= 1] (below 0,
    above 1, or NaN) [getPointForT] throws the [RangeError] for [t]. *)
Theorem getPointForT_endpoints (this : Curve float) :
  getPointForT this 0 = Ok (0, 0) /\
  getPointForT this 1 = Ok (1, 1) /\
  (forall t, in_unit t = false ->
     getPointForT this t = Throw (RangeError "t" (Some t))).
Proof.
  split; [reflexivity|]. split; [reflexivity|].
  intros t H. destruct (outside_tests _ H) as (E0 & E1 & E).
  unfold getPointForT. prim. rewrite E0, E1, E. reflexivity.
Qed.

(** C6 as stated fails: the curve of [linear()] is the cubic with control
    points (0,0) and (1,1), whose coordinate at [t] is [3t^2 - 2t^3]; at
    [t = 0.25] it is 0.15625 on both axes, not 0.25. *)
Lemma linear_quarter_is_not_quarter :
  exists this x y,
    linear = Ok this /\
    getPointForT this 0.25 = Ok (x, y) /\
    (x =? 0.25) = false /\ (y =? 0.25) = false.
Proof.
  exists (mkCurve 0 0 1 1), 0.15625, 0.15625.
  repeat split; vm_compute; reflexivity.
Qed.

(** C6, amended. For every [t] with [0 <= t <= 1] the point of [linear()]
    at [t] lies on the diagonal: it is [(t, t)] when [t] is 0 or 1 and
    [(s, s)] with [s = ((-2*t + 3)*t + 0)*t] otherwise. *)
Theorem linear_getPointForT (t : float) :
  in_unit t = true ->
  exists this,
    linear = Ok this /\
    getPointForT this t =
      Ok (if (t =? 0) || (t =? 1) then (t, t)
          else (((-2 * t + 3) * t + 0) * t, ((-2 * t + 3) * t + 0) * t)).
Proof.
  intros H. exists (mkCurve 0 0 1 1). split; [reflexivity|].
  destruct (in_unit_cases _ H) as [E|[E|(E0 & E1 & H0 & H1)]].
  - unfold getPointForT. prim. rewrite E. reflexivity.
  - unfold getPointForT. prim. rewrite E, orb_true_r. reflexivity.
  - rewrite (getPointForT_interior _ _ H0 H1), E0, E1. reflexivity.
Qed.

Lemma linear_getPointForT_witness :
  exists this,
    linear = Ok this /\ getPointForT this 0.25 = Ok (0.15625, 0.15625).
Proof. exact (linear_getPointForT 0.25 eq_refl). Defined.

(** ** Subdivision at the ends *)

Lemma curves_index_0 (t : float) (l k : Curve float) :
  (t =? 0) = true ->
  curves_set (1 - t)%js k (curves_set t l (None, None)) = (Some l, Some k).
Proof.
  intros E. unfold curves_set. prim. rewrite E. simpl.
  apply eqb_0_zero in E as [s E].
  assert (E1 : 1 - t = 1).
  { apply Prim2SF_inj. rewrite FloatAxioms.sub_spec, E.
    destruct s; vm_compute; reflexivity. }
  rewrite E1. reflexivity.
Qed.

Lemma curves_index_1 (l k : Curve float) :
  curves_set (1 - 1)%js k (curves_set 1%float l (None, None))
  = (Some k, Some l).
Proof. reflexivity. Qed.

(** C8. On a valid curve, [divideAtT] throws a [RangeError] for [t] whenever
    [t] fails [0 <= t && t <= 1]; at [t = 0] it returns the linear curve
    (control points (0,0) and (1,1), which is what [linear()] returns) on
    the left and a curve with the control points of the original on the
    right, at [t = 1] the same two the other way round. *)
Theorem divideAtT_ends (this : Curve float) :
  valid this ->
  (forall t, in_unit t = false ->
     exists got, divideAtT this t = Throw (RangeError "t" got)) /\
  linear = Ok (mkCurve 0 0 1 1) /\
  divideAtT this 0 = Ok (Some (mkCurve 0 0 1 1), Some this) /\
  divideAtT this 1 = Ok (Some this, Some (mkCurve 0 0 1 1)).
Proof.
  intros V. repeat split.
  - intros t H. destruct (outside_tests _ H) as (E0 & E1 & E).
    unfold divideAtT. prim.
    destruct ((t <? 0) || (1 <? t)); [eauto|].
    rewrite E0, E1. simpl.
    unfold _getAuxPoints. prim. rewrite E. simpl. eauto.
  - unfold divideAtT. prim.
    change ((0 <? 0) || (1 <? 0)) with false.
    change ((0 =? 0) || (0 =? 1)) with true. cbv iota.
    change (@linear float binary64) with (Ok (num:=float) (mkCurve 0 0 1 1)).
    rewrite (clone_valid this V). reflexivity.
  - unfold divideAtT. prim.
    change ((1 <? 0) || (1 <? 1)) with false.
    change ((1 =? 0) || (1 =? 1)) with true. cbv iota.
    change (@linear float binary64) with (Ok (num:=float) (mkCurve 0 0 1 1)).
    rewrite (clone_valid this V). reflexivity.
Qed.

Lemma divideAtT_ends_witness :
  linear = Ok (mkCurve 0 0 1 1) /\
  divideAtT (mkCurve 0.25 0.1 0.25 1.0) 0
  = Ok (Some (mkCurve 0 0 1 1), Some (mkCurve 0.25 0.1 0.25 1.0)) /\
  divideAtT (mkCurve 0.25 0.1 0.25 1.0) 1
  = Ok (Some (mkCurve 0.25 0.1 0.25 1.0), Some (mkCurve 0 0 1 1)).
Proof.
  refine (proj2 (divideAtT_ends (mkCurve 0.25 0.1 0.25 1.0) _)).
  repeat split; reflexivity.
Defined.

(** ** Subdivision at a division point on the boundary *)

(** A quotient by a zero is NaN or an infinity, and fails the range test. *)
Lemma quotient_by_zero_outside (x d : float) (s : bool) :
  Prim2SF d = S754_zero s -> in_unit (x / d) = false.
Proof.
  intros H. rewrite in_unit_eq, !FloatAxioms.leb_spec, FloatAxioms.div_spec.
  rewrite H, Prim2SF_0, Prim2SF_1.
  destruct (Prim2SF x) as [sx|sx| |sx mx ex]; simpl;
    try reflexivity; destruct sx, s; reflexivity.
Qed.

Lemma quotient_by_0_outside (x d : float) :
  (d =? 0) = true -> in_unit (x / d) = false.
Proof.
  intros E. apply eqb_0_zero in E as [s E].
  exact (quotient_by_zero_outside x d s E).
Qed.

Lemma quotient_by_1_minus_1_outside (x d : float) :
  (d =? 1) = true -> in_unit (x / (1 - d)) = false.
Proof.
  intros E. apply eqb_1_one in E. subst d.
  apply (quotient_by_zero_outside x (1 - 1) false). reflexivity.
Qed.

(** The parameter names of the constructor's errors. *)
Definition constructor_parameters : list string :=
  ["p1x"; "p1y"; "p2x"; "p2y"]%string.

Lemma rejected_by_constructor (p1x p1y p2x p2y : float) :
  in_unit p1x && in_unit p1y && in_unit p2x && in_unit p2y = false ->
  exists p v,
    CubicBezier p1x p1y p2x p2y = Throw (RangeError p (Some v)) /\
    In p constructor_parameters /\ in_unit v = false.
Proof.
  intros H.
  destruct (CubicBezier_rejects p1x p1y p2x p2y H) as (p & v & E & Hin & Hv).
  exists p, v. repeat split; try assumption.
  simpl in Hin. unfold constructor_parameters. simpl.
  destruct Hin as [Hin|[Hin|[Hin|[Hin|[]]]]]; inversion Hin; auto.
Qed.

(** C9 as stated fails: at [t = 1e-200] the division point of [easeOut()]
    has [kx = 0] ([t * t] underflows), the left curve's [p1x] is [0 / 0],
    and [divideAtT] throws the very [RangeError] that the constructor throws
    for a NaN [p1x]; the code has no other kind of error. *)
Lemma easeOut_degenerate_is_RangeError :
  exists this points e,
    easeOut = Ok this /\
    _getAuxPoints this 1e-200 = Ok points /\
    (at_index points 10 =? 0) = true /\
    divideAtT this 1e-200 = Throw e /\
    CubicBezier nan 0 0 0 = Throw e.
Proof.
  exists (mkCurve 0 0 0.58 1.0). eexists. exists (RangeError "p1x" (Some nan)).
  repeat split; vm_compute; reflexivity.
Qed.

(** C9, amended. When the division point computed for [t] has [kx] or [ky]
    equal to 0 or 1, [divideAtT] returns no curves: a control coordinate of
    the left or right curve fails the constructor's range test (a quotient
    by zero is NaN or infinite), and [divideAtT] throws the constructor's
    [RangeError] naming that coordinate and its value. *)
Theorem divideAtT_boundary_point_throws
  (this : Curve float) (t : float) (points : list float) :
  _getAuxPoints this t = Ok points ->
  (at_index points 10 =? 0) || (at_index points 10 =? 1) ||
  (at_index points 11 =? 0) || (at_index points 11 =? 1) = true ->
  exists p v,
    divideAtT this t = Throw (RangeError p (Some v)) /\
    In p constructor_parameters /\ in_unit v = false.
Proof.
  intros Haux Hk.
  assert (Ht : (0 <? t) = true /\ (t <? 1) = true).
  { unfold _getAuxPoints in Haux. prim.
    destruct (0 <? t); [|discriminate]. destruct (t <? 1); [|discriminate].
    auto. }
  destruct Ht as [H0 H1]. destruct (interior_tests _ H0 H1) as [E0 E1].
  assert (G : (t <? 0) || (1 <? t) = false).
  { apply orb_false_iff. split.
    - destruct (t <? 0) eqn:E; [|reflexivity].
      apply ltb_compare in E, H0. rewrite SFcompare_swap, E in H0.
      discriminate.
    - destruct (1 <? t) eqn:E; [|reflexivity].
      apply ltb_compare in E, H1. rewrite SFcompare_swap, E in H1.
      discriminate. }
  unfold divideAtT. prim. rewrite G, E0, E1, Haux. cbn [orb bind].
  set (kx := at_index points 10) in *. set (ky := at_index points 11) in *.
  match goal with
  | |- context [bind (CubicBezier ?a ?b ?c ?d) _] =>
      destruct (CubicBezier_cases a b c d)
        as [(El & L1 & L2 & L3 & L4)|(p & v & El & Hin & Hv)]
  end.
  - rewrite El. cbn [bind].
    assert (R : exists p v,
      CubicBezier ((at_index points 8 - kx) / (1 - kx))
                  ((at_index points 9 - ky) / (1 - ky))
                  ((at_index points 4 - kx) / (1 - kx))
                  ((at_index points 5 - ky) / (1 - ky))
      = Throw (RangeError p (Some v)) /\
      In p constructor_parameters /\ in_unit v = false).
    { apply rejected_by_constructor.
      apply orb_true_iff in Hk as [Hk|Hk];
        [apply orb_true_iff in Hk as [Hk|Hk];
           [apply orb_true_iff in Hk as [Hk|Hk]|]|].
      - rewrite (quotient_by_0_outside _ _ Hk) in L1. discriminate.
      - rewrite (quotient_by_1_minus_1_outside _ _ Hk). reflexivity.
      - rewrite (quotient_by_0_outside _ _ Hk) in L2. discriminate.
      - rewrite (quotient_by_1_minus_1_outside
                   (at_index points 9 - ky) _ Hk).
        rewrite andb_false_r. reflexivity. }
    destruct R as (p & v & Er & Hin & Hv). prim. rewrite Er.
    exists p, v. auto.
  - rewrite El. exists p, v. repeat split; try assumption.
    simpl in Hin. unfold constructor_parameters. simpl.
    destruct Hin as [Hin|[Hin|[Hin|[Hin|[]]]]]; inversion Hin; auto.
Qed.

Lemma divideAtT_boundary_point_throws_witness :
  exists p v,
    divideAtT (mkCurve 0 0 1 1) 0.999999999 = Throw (RangeError p (Some v)) /\
    In p constructor_parameters /\ in_unit v = false.
Proof.
  refine (divideAtT_boundary_point_throws (mkCurve 0 0 1 1) 0.999999999
            _ _ _); [vm_compute; reflexivity | vm_compute; reflexivity].
Defined.

(** ** Rounding in De Casteljau's construction *)

(** C2 as stated fails in binary64: for [easeIn()] at [t = 0.25] the
    division point has [kx = 0.33343749999999994] while the polynomial gives
    [0.3334375]; the two computations round differently. *)
Lemma easeIn_division_point_differs :
  exists this points,
    easeIn = Ok this /\
    _getAuxPoints this 0.25 = Ok points /\
    at_index points 10 = 0.33343749999999994 /\
    _getCoordinateForT 0.25 (_p1x this) (_p2x this) = 0.3334375 /\
    (at_index points 10 =? _getCoordinateForT 0.25 (_p1x this) (_p2x this))
    = false.
Proof.
  exists (mkCurve 0.42 0 1.0 1.0). eexists.
  repeat split; vm_compute; reflexivity.
Qed.

(** C10 as stated fails in binary64, at both ends.  [easeOut()] is a valid
    curve and [0 < 1e-200 < 1], yet the division point has [kx = 0] and
    [ky = 0] (products of the order of [t * t] underflow), so the divisors
    [kx] and [ky] of [divideAtT] are zero.  [linear()] is a valid curve and
    [0 < 0.999999999 < 1], yet the division point rounds to [kx = 1] and
    [ky = 1], so the divisors [1 - kx] and [1 - ky] are zero. *)
Lemma division_point_reaches_boundary :
  (exists this points,
     easeOut = Ok this /\
     (0 <? 1e-200) = true /\ (1e-200 <? 1) = true /\
     _getAuxPoints this 1e-200 = Ok points /\
     at_index points 10 = 0 /\ at_index points 11 = 0) /\
  (exists this points,
     linear = Ok this /\
     (0 <? 0.999999999) = true /\ (0.999999999 <? 1) = true /\
     _getAuxPoints this 0.999999999 = Ok points /\
     1 - at_index points 10 = 0 /\ 1 - at_index points 11 = 0).
Proof.
  split.
  - exists (mkCurve 0 0 0.58 1.0). eexists.
    repeat split; vm_compute; reflexivity.
  - exists (mkCurve 0 0 1 1). eexists.
    repeat split; vm_compute; reflexivity.
Qed.

(** ** A bisection that never ends *)

Section Stall.

Variables (c p1 p2 epsilon : float).

(** [n] turns of the loop, when none of them returns. *)
Fixpoint turns (n : nat) (s : bisection_state) : option bisection_state :=
  match n with
  | O => Some s
  | S n' =>
      match bisection_step c p1 p2 epsilon s with
      | Continue s' => turns n' s'
      | Return _ => None
      end
  end.

Lemma bisection_fixed_state s :
  bisection_step c p1 p2 epsilon s = Continue s ->
  forall fuel, bisection c p1 p2 epsilon fuel s = None.
Proof.
  intros H fuel. induction fuel as [|fuel IH]; simpl; [reflexivity|].
  rewrite H. exact IH.
Qed.

Lemma bisection_after_turns n :
  forall s s',
    turns n s = Some s' ->
    (forall fuel, bisection c p1 p2 epsilon fuel s' = None) ->
    forall fuel, bisection c p1 p2 epsilon fuel s = None.
Proof.
  induction n as [|n IH]; simpl; intros s s' Hn Hs' fuel.
  - injection Hn as ->. apply Hs'.
  - destruct (bisection_step c p1 p2 epsilon s) as [s1|t] eqn:E;
      [|discriminate].
    destruct fuel as [|fuel]; simpl; [reflexivity|].
    rewrite E. exact (IH s1 s' Hn Hs' fuel).
Qed.

End Stall.

(** The state in which the bisection for [x = 0.75] on [ease()] stalls:
    [t0] and [t1] are neighbouring numbers, the midpoint rounds to [t0], and
    the residual there, 1.11e-16, is not below [epsilon]. *)
Definition stalled : @bisection_state float :=
  (0.87387250037012532, 0.87387250037012543, 0.87387250037012532).

Lemma ease_bisection_stalls :
  turns 0.75 0.25 0.25 1e-16 52 (0, 1, 0.75) = Some stalled /\
  bisection_step 0.75 0.25 0.25 1e-16 stalled = Continue stalled.
Proof. split; vm_compute; reflexivity. Qed.

(** C4 fails on the code: [ease().getTforX(0.75, 1e-16)] passes the guard on
    [epsilon], the 8 Newton iterations do not reach the tolerance, and the
    bisection loop never leaves: whatever number of iterations it is given,
    it has not returned. *)
Theorem getTforX_ease_never_returns :
  exists this,
    ease = Ok this /\
    isFinite 1e-16 = true /\ (1e-16 <=? 0) = false /\
    forall fuel, getTforX this 0.75 1e-16 fuel = None.
Proof.
  exists (mkCurve 0.25 0.1 0.25 1.0).
  split; [reflexivity|]. split; [reflexivity|]. split; [reflexivity|].
  intros fuel. unfold getTforX. cbn [_p1x _p2x].
  rewrite _getTForCoordinate_run by reflexivity.
  replace (newton 0.75 0.25 0.25 1e-16 8 0.75)
    with (@Continue unit float tt) by (vm_compute; reflexivity).
  change (fallback 0.75 0.25 0.25 1e-16 fuel)
    with (bisection 0.75 0.25 0.25 1e-16 fuel (0, 1, 0.75)).
  destruct ease_bisection_stalls as [Hturns Hfix].
  rewrite (bisection_after_turns _ _ _ _ 52 _ _ Hturns
             (bisection_fixed_state _ _ _ _ _ Hfix) fuel).
  reflexivity.
Qed.

(** ** The Newton phase *)

Section NewtonPhaseSpec.

Variables (c p1 p2 epsilon : float).

(** The residual [coordinate(t) - c] in the words of the specification:
    the cubic [((a*t + b)*t + c)*t] of the axis, with its coefficients
    [c = 3*p1], [b = 3*(p2 - p1) - c], [a = 1 - c - b], less the target. *)
Definition spec_residual (t : float) : float :=
  let cc := 3 * p1 in
  let cb := 3 * (p2 - p1) - cc in
  let ca := 1 - cc - cb in
  ((ca * t + cb) * t + cc) * t - c.

(** The derivative at [t] in the words of the specification:
    [(3*a*t + 2*b)*t + c] with the same coefficients. *)
Definition spec_derivative (t : float) : float :=
  let cc := 3 * p1 in
  let cb := 3 * (p2 - p1) - cc in
  let ca := 1 - cc - cb in
  (3 * ca * t + 2 * cb) * t + cc.

(** The outcome of the Newton phase. *)
Inductive newton_outcome : Type :=
| Converged (t : float)
| FallThrough.

(** The Newton phase in the words of the specification: [NewtonPhase i t o]
    reads "with [i] iterations done and the estimate [t], the phase ends
    with [o]".  At most 8 iterations run; an iteration returns [t] when the
    residual is below [epsilon] in magnitude, abandons the phase when the
    derivative is below 1e-6 in magnitude, and otherwise goes on from
    [t - residual / derivative]. *)
Inductive NewtonPhase : nat -> float -> newton_outcome -> Prop :=
| NP_return i t :
    (i < 8)%nat ->
    (abs (spec_residual t) <? epsilon) = true ->
    NewtonPhase i t (Converged t)
| NP_abandon i t :
    (i < 8)%nat ->
    (abs (spec_residual t) <? epsilon) = false ->
    (abs (spec_derivative t) <? 1e-6) = true ->
    NewtonPhase i t FallThrough
| NP_update i t o :
    (i < 8)%nat ->
    (abs (spec_residual t) <? epsilon) = false ->
    (abs (spec_derivative t) <? 1e-6) = false ->
    NewtonPhase (S i) (t - spec_residual t / spec_derivative t) o ->
    NewtonPhase i t o
| NP_limit t :
    NewtonPhase 8 t FallThrough.

Definition outcome_of (l : loop unit float) : newton_outcome :=
  match l with
  | Return t => Converged t
  | Continue _ => FallThrough
  end.

(** One iteration of the code's loop, read with the primitive operations. *)
Lemma newton_iteration (n : nat) (t : float) :
  newton c p1 p2 epsilon (S n) t =
    if abs (spec_residual t) <? epsilon then Return t
    else if abs (spec_derivative t) <? 1e-6 then Continue tt
    else newton c p1 p2 epsilon n (t - spec_residual t / spec_derivative t).
Proof. reflexivity. Qed.

Lemma newton_meets_NewtonPhase (n : nat) :
  forall i t, (i + n = 8)%nat ->
    NewtonPhase i t (outcome_of (newton c p1 p2 epsilon n t)).
Proof.
  induction n as [|n IH]; intros i t Hi.
  - replace i with 8%nat by lia. apply NP_limit.
  - rewrite newton_iteration.
    destruct (abs (spec_residual t) <? epsilon) eqn:Hres.
    + apply NP_return; [lia | exact Hres].
    + destruct (abs (spec_derivative t) <? 1e-6) eqn:Hder.
      * apply NP_abandon; [lia | exact Hres | exact Hder].
      * apply NP_update; [lia | exact Hres | exact Hder |].
        apply IH. lia.
Qed.

Lemma NewtonPhase_deterministic i t o :
  NewtonPhase i t o -> forall o', NewtonPhase i t o' -> o' = o.
Proof.
  induction 1 as [i t Hi Hres|i t Hi Hres Hder|i t o Hi Hres Hder _ IH|t];
    intros o' H'; inversion H'; subst;
    try reflexivity; try congruence; try lia.
  apply IH. assumption.
Qed.

End NewtonPhaseSpec.

(** C3. For a finite [epsilon > 0], the Newton phase of
    [_getTForCoordinate] is the phase the specification describes: it starts
    from [t = c] with no iteration done, runs at most 8 iterations, returns
    [t] from an iteration whose residual [((a*t + b)*t + c)*t - c] is below
    [epsilon] in magnitude, leaves for the bisection when the derivative
    [(3*a*t + 2*b)*t + c] is below 1e-6 in magnitude, and otherwise continues
    from [t - residual / derivative].  The description determines the
    outcome [o]; [_getTForCoordinate] returns [t] when [o] is
    [Converged t], and otherwise what follows the loop: the clamp 0 or 1 for
    a target outside [0,1], else the bisection started from [t0 = 0],
    [t1 = 1], [t2 = c]. *)
Theorem newton_phase_as_specified (c p1 p2 epsilon : float) (fuel : nat) :
  is_finite epsilon = true -> (epsilon <=? 0) = false ->
  exists o,
    NewtonPhase c p1 p2 epsilon 0 c o /\
    (forall o', NewtonPhase c p1 p2 epsilon 0 c o' -> o' = o) /\
    _getTForCoordinate c p1 p2 epsilon fuel =
      match o with
      | Converged t => Some (Ok t)
      | FallThrough =>
          if c <? 0 then Some (Ok 0)
          else if 1 <? c then Some (Ok 1)
          else option_map Ok (bisection c p1 p2 epsilon fuel (0, 1, c))
      end.
Proof.
  intros F P.
  assert (G : negb (isFinite epsilon) || (epsilon <=? 0) = false).
  { change (isFinite epsilon) with (is_finite epsilon).
    rewrite F, P. reflexivity. }
  assert (HP : NewtonPhase c p1 p2 epsilon 0 c
                 (outcome_of (newton c p1 p2 epsilon 8 c)))
    by (apply newton_meets_NewtonPhase; reflexivity).
  exists (outcome_of (newton c p1 p2 epsilon 8 c)).
  split; [exact HP|]. split.
  - apply NewtonPhase_deterministic. exact HP.
  - rewrite (_getTForCoordinate_run c p1 p2 epsilon fuel G).
    destruct (newton c p1 p2 epsilon 8 c); [|reflexivity].
    cbn [outcome_of]. unfold fallback. prim.
    destruct (c <? 0); [reflexivity|].
    destruct (1 <? c); reflexivity.
Qed.

Lemma newton_phase_as_specified_witness :
  exists o,
    NewtonPhase 0.75 0.25 0.25 1e-6 0 0.75 o /\
    (forall o', NewtonPhase 0.75 0.25 0.25 1e-6 0 0.75 o' -> o' = o) /\
    _getTForCoordinate 0.75 0.25 0.25 1e-6 64 =
      match o with
      | Converged t => Some (Ok t)
      | FallThrough =>
          if 0.75 <? 0 then Some (Ok 0)
          else if 1 <? 0.75 then Some (Ok 1)
          else option_map Ok (bisection 0.75 0.25 0.25 1e-6 64 (0, 1, 0.75))
      end.
Proof.
  exact (newton_phase_as_specified 0.75 0.25 0.25 1e-6 64 eq_refl eq_refl).
Defined.

(** On that inversion the phase converges at its fourth iteration; the
    estimates are those of the update [t - residual / derivative]. *)
Example newton_phase_ease :
  NewtonPhase 0.75 0.25 0.25 1e-6 0 0.75 (Converged 0.87387265805421499).
Proof.
  exact (newton_meets_NewtonPhase 0.75 0.25 0.25 1e-6 8 0 0.75 eq_refl).
Qed.

Example getTforX_ease_converges :
  getTforX (mkCurve 0.25 0.1 0.25 1.0) 0.75 1e-6 64
  = Some (Ok 0.87387265805421499).
Proof. vm_compute. reflexivity. Qed.

End Binary64.

(** ** The curve in exact arithmetic *)

Module Exact.

Local Open Scope Q_scope.

Lemma lt_iff (x y : Q) : lt x y = true <-> x < y.
Proof.
  cbn [lt exact]. rewrite negb_true_iff, <- not_true_iff_false, Qle_bool_iff.
  split; [apply Qnot_le_lt | apply Qlt_not_le].
Qed.

Lemma le_iff (x y : Q) : le x y = true <-> x <= y.
Proof. cbn [le exact]. apply Qle_bool_iff. Qed.

Lemma in_unit_iff (p : Q) : in_unit p = true <-> 0 <= p <= 1.
Proof.
  unfold in_unit. rewrite andb_true_iff, !le_iff. reflexivity.
Qed.

Lemma _getAuxPoints_interior (this : Curve Q) (t : Q) :
  0 < t -> t < 1 ->
  exists points,
    _getAuxPoints this t = Ok points /\
    at_index points 10 ==
      3 * (t * (1 - t) * (1 - t) * _p1x this)
      + 3 * (t * t * (1 - t) * _p2x this) + t * t * t /\
    at_index points 11 ==
      3 * (t * (1 - t) * (1 - t) * _p1y this)
      + 3 * (t * t * (1 - t) * _p2y this) + t * t * t.
Proof.
  intros H0 H1. unfold _getAuxPoints. cbn [lit_0 lit_1 exact].
  apply lt_iff in H0, H1. rewrite H0, H1. cbn [negb orb].
  eexists. split; [reflexivity|].
  unfold at_index. cbn [nth]. cbn [add sub mul lit_1 exact].
  split; ring.
Qed.

(** C2, amended. In exact arithmetic, for [0 < t < 1] the division point
    [k = j0 + t*(j1 - j0)] that [_getAuxPoints] computes equals on each axis
    the value of the cubic [_getCoordinateForT] at [t]. *)
Theorem division_point_on_curve (this : Curve Q) (t : Q) :
  0 < t -> t < 1 ->
  exists points,
    _getAuxPoints this t = Ok points /\
    at_index points 10 == _getCoordinateForT t (_p1x this) (_p2x this) /\
    at_index points 11 == _getCoordinateForT t (_p1y this) (_p2y this).
Proof.
  intros H0 H1.
  destruct (_getAuxPoints_interior this t H0 H1) as (points & E & Kx & Ky).
  exists points. split; [exact E|].
  rewrite Kx, Ky. unfold _getCoordinateForT.
  cbn [add sub mul lit_1 lit_3 exact]. split; ring.
Qed.

Lemma division_point_on_curve_witness :
  exists points,
    _getAuxPoints (mkCurve (42 # 100) 0 1 1) (1 # 4) = Ok points /\
    at_index points 10 == _getCoordinateForT (1 # 4) (42 # 100) 1 /\
    at_index points 11 == _getCoordinateForT (1 # 4) 0 1.
Proof.
  exact (division_point_on_curve (mkCurve (42 # 100) 0 1 1) (1 # 4)
           eq_refl eq_refl).
Defined.

(** A Bernstein combination of two numbers of [0,1] with end values 0 and 1
    lies strictly inside (0,1) for [0 < t < 1]. *)
Lemma bernstein_interior (t p1 p2 : Q) :
  0 < t -> t < 1 -> 0 <= p1 <= 1 -> 0 <= p2 <= 1 ->
  0 < 3 * (t * (1 - t) * (1 - t) * p1) + 3 * (t * t * (1 - t) * p2)
      + t * t * t < 1.
Proof.
  intros H0 H1 [P1 P1'] [P2 P2'].
  assert (U : 0 < 1 - t) by lra.
  assert (T2 : 0 < t * t) by (apply Qmult_lt_0_compat; assumption).
  assert (U2 : 0 < (1 - t) * (1 - t)) by (apply Qmult_lt_0_compat; assumption).
  assert (TU : 0 < t * (1 - t)) by (apply Qmult_lt_0_compat; assumption).
  assert (T3 : 0 < t * t * t) by (apply Qmult_lt_0_compat; assumption).
  assert (U3 : 0 < (1 - t) * (1 - t) * (1 - t))
    by (apply Qmult_lt_0_compat; assumption).
  assert (A : 0 <= t * (1 - t) * (1 - t) * p1).
  { apply Qmult_le_0_compat; [|assumption].
    apply Qlt_le_weak, Qmult_lt_0_compat; assumption. }
  assert (B : 0 <= t * t * (1 - t) * p2).
  { apply Qmult_le_0_compat; [|assumption].
    apply Qlt_le_weak, Qmult_lt_0_compat; assumption. }
  assert (A' : 0 <= t * (1 - t) * (1 - t) * (1 - p1)).
  { apply Qmult_le_0_compat; [|lra].
    apply Qlt_le_weak, Qmult_lt_0_compat; assumption. }
  assert (B' : 0 <= t * t * (1 - t) * (1 - p2)).
  { apply Qmult_le_0_compat; [|lra].
    apply Qlt_le_weak, Qmult_lt_0_compat; assumption. }
  split; lra.
Qed.

(** C10, amended. In exact arithmetic, for a curve whose four control
    coordinates lie in [0,1] and for [0 < t < 1], the division point of
    [_getAuxPoints] has [kx] and [ky] strictly between 0 and 1, so the four
    divisors [kx], [ky], [1 - kx], [1 - ky] of [divideAtT] are not zero. *)
Theorem division_point_interior (this : Curve Q) (t : Q) :
  valid this -> 0 < t -> t < 1 ->
  exists points,
    _getAuxPoints this t = Ok points /\
    (0 < at_index points 10 < 1 /\ 0 < at_index points 11 < 1) /\
    ~ at_index points 10 == 0 /\ ~ at_index points 11 == 0 /\
    ~ 1 - at_index points 10 == 0 /\ ~ 1 - at_index points 11 == 0.
Proof.
  intros (V1x & V1y & V2x & V2y) H0 H1.
  apply in_unit_iff in V1x, V1y, V2x, V2y.
  destruct (_getAuxPoints_interior this t H0 H1) as (points & E & Kx & Ky).
  exists points. split; [exact E|].
  pose proof (bernstein_interior t _ _ H0 H1 V1x V2x) as Bx.
  pose proof (bernstein_interior t _ _ H0 H1 V1y V2y) as By.
  rewrite <- Kx in Bx. rewrite <- Ky in By.
  destruct Bx as [Bx Bx'], By as [By By'].
  repeat split; try assumption; intros Z; lra.
Qed.

Lemma division_point_interior_witness :
  exists points,
    _getAuxPoints (mkCurve 0 0 (58 # 100) 1) (1 # 2) = Ok points /\
    (0 < at_index points 10 < 1 /\ 0 < at_index points 11 < 1) /\
    ~ at_index points 10 == 0 /\ ~ at_index points 11 == 0 /\
    ~ 1 - at_index points 10 == 0 /\ ~ 1 - at_index points 11 == 0.
Proof.
  refine (division_point_interior (mkCurve 0 0 (58 # 100) 1) (1 # 2)
            _ eq_refl eq_refl).
  repeat split; reflexivity.
Defined.

End Exact.

(** * Further properties of the code *)

(** ** What [_getTForCoordinate] returns *)

Section InversionReturns.

Context {num : Type} {N : Number num}.
Local Open Scope js_scope.

Variables (c p1 p2 epsilon : num).

(** The test [Math.abs(coordinate(t) - c) < epsilon] of both loops. *)
Definition within_tolerance (t : num) : Prop :=
  (Math_abs (_getCoordinateForT t p1 p2 - c) <? epsilon) = true.

(** The states the bisection loop passes through from its start. *)
Inductive bisection_reaches : @bisection_state num -> Prop :=
| reaches_start : bisection_reaches (lit_0, lit_1, c)
| reaches_turn s s' :
    bisection_reaches s ->
    bisection_step c p1 p2 epsilon s = Continue s' ->
    bisection_reaches s'.

Lemma newton_return n :
  forall t2 t, newton c p1 p2 epsilon n t2 = Return t -> within_tolerance t.
Proof.
  induction n as [|n IH]; simpl; intros t2 t H; [discriminate|].
  destruct (Math_abs (_getCoordinateForT t2 p1 p2 - c) <? epsilon) eqn:Hres.
  - injection H as <-. exact Hres.
  - destruct (Math_abs (_getCoordinateDerivateForT t2 p1 p2) <? lit_1e_6);
      [discriminate|].
    exact (IH _ _ H).
Qed.

Lemma bisection_return fuel :
  forall s t,
    bisection_reaches s ->
    bisection c p1 p2 epsilon fuel s = Some t ->
    within_tolerance t \/
    exists t0 t1, bisection_reaches (t0, t1, t) /\ (t0 <? t1) = false.
Proof.
  induction fuel as [|fuel IH]; simpl; intros s t Hs H; [discriminate|].
  destruct (bisection_step c p1 p2 epsilon s) as [s'|r] eqn:E.
  - apply (IH s' t); [|exact H]. exact (reaches_turn s s' Hs E).
  - injection H as ->. destruct s as [[t0 t1] t2].
    unfold bisection_step in E.
    destruct (t0 <? t1) eqn:Hlt.
    + destruct (Math_abs (_getCoordinateForT t2 p1 p2 - c) <? epsilon)
        eqn:Hres.
      * injection E as <-. left. exact Hres.
      * destruct (c >? _getCoordinateForT t2 p1 p2); discriminate.
    + injection E as <-. right. exists t0, t1. auto.
Qed.

(** X1. A parameter [t] returned by [_getTForCoordinate] meets the
    tolerance, [|coordinate(t) - c| < epsilon], unless it is the clamp 0 for
    [c < 0], the clamp 1 for [c > 1], or the estimate left when the
    bisection loop ended because [t0 < t1] no longer held. *)
Theorem _getTForCoordinate_returns (fuel : nat) (t : num) :
  _getTForCoordinate c p1 p2 epsilon fuel = Some (Ok t) ->
  within_tolerance t \/
  ((c <? lit_0) = true /\ t = lit_0) \/
  ((c >? lit_1) = true /\ t = lit_1) \/
  (exists t0 t1, bisection_reaches (t0, t1, t) /\ (t0 <? t1) = false).
Proof.
  unfold _getTForCoordinate.
  destruct (negb (isFinite epsilon) || (epsilon <=? lit_0)); [discriminate|].
  destruct (newton c p1 p2 epsilon 8 c) as [[]|r] eqn:En.
  - unfold fallback.
    destruct (c <? lit_0) eqn:H0.
    { simpl. intros H. injection H as <-. auto. }
    destruct (c >? lit_1) eqn:H1.
    { simpl. intros H. injection H as <-. auto. }
    destruct (bisection c p1 p2 epsilon fuel (lit_0, lit_1, c)) as [r|] eqn:Eb;
      simpl; [|discriminate].
    intros H. injection H as <-.
    destruct (bisection_return fuel _ _ reaches_start Eb) as [H|H]; auto.
  - intros H. injection H as <-. left. exact (newton_return _ _ _ En).
Qed.

(** X2. For a coordinate outside [0,1] ([c < 0] or [c > 1]) and an
    [epsilon] that passes the guard, [_getTForCoordinate] returns without
    entering the bisection loop: the result does not depend on the number of
    loop iterations allowed, and it is a Newton estimate within tolerance or
    the clamp (0 for [c < 0], else 1). *)
Theorem _getTForCoordinate_outside :
  negb (isFinite epsilon) || (epsilon <=? lit_0) = false ->
  (c <? lit_0) = true \/ (c >? lit_1) = true ->
  exists t,
    (forall fuel, _getTForCoordinate c p1 p2 epsilon fuel = Some (Ok t)) /\
    (within_tolerance t \/ t = if c <? lit_0 then lit_0 else lit_1).
Proof.
  intros G Hc. unfold _getTForCoordinate. rewrite G.
  destruct (newton c p1 p2 epsilon 8 c) as [[]|r] eqn:En.
  - exists (if c <? lit_0 then lit_0 else lit_1). split; [|auto].
    intros fuel. unfold fallback.
    destruct (c <? lit_0); [reflexivity|].
    destruct Hc as [Hc|Hc]; [discriminate|]. rewrite Hc. reflexivity.
  - exists r. split; [reflexivity|]. left. exact (newton_return _ _ _ En).
Qed.

End InversionReturns.

(** ** Edge behaviour in binary64 arithmetic *)

Module Binary64Edge.

Import B64.
Local Open Scope float_scope.

Ltac prim := Binary64.prim.

(** *** NaN *)

Lemma Prim2SF_nan : Prim2SF nan = S754_nan.
Proof. reflexivity. Qed.

Lemma mul_nan (x : float) : x * nan = nan.
Proof.
  apply Prim2SF_inj. rewrite FloatAxioms.mul_spec, Prim2SF_nan.
  unfold SF64mul. destruct (Prim2SF x); reflexivity.
Qed.

Lemma nan_add (x : float) : nan + x = nan.
Proof.
  apply Prim2SF_inj. rewrite FloatAxioms.add_spec, Prim2SF_nan. reflexivity.
Qed.

Lemma sub_nan (x : float) : x - nan = nan.
Proof.
  apply Prim2SF_inj. rewrite FloatAxioms.sub_spec, Prim2SF_nan.
  unfold SF64sub. destruct (Prim2SF x); reflexivity.
Qed.

Lemma nan_ltb (x : float) : (nan <? x) = false.
Proof. rewrite FloatAxioms.ltb_spec, Prim2SF_nan. reflexivity. Qed.

Lemma ltb_nan (x : float) : (x <? nan) = false.
Proof.
  rewrite FloatAxioms.ltb_spec, Prim2SF_nan.
  unfold SFltb. destruct (Prim2SF x); reflexivity.
Qed.

Lemma coordinate_nan (p1 p2 : float) : _getCoordinateForT nan p1 p2 = nan.
Proof. unfold _getCoordinateForT. prim. apply mul_nan. Qed.

Lemma derivative_nan (p1 p2 : float) :
  _getCoordinateDerivateForT nan p1 p2 = nan.
Proof.
  unfold _getCoordinateDerivateForT. prim. rewrite mul_nan. apply nan_add.
Qed.

Lemma newton_nan (p1 p2 epsilon : float) (n : nat) :
  newton nan p1 p2 epsilon n nan = Continue tt.
Proof.
  induction n as [|n IH]; [reflexivity|].
  cbn [newton]. rewrite coordinate_nan, derivative_nan. prim.
  change (abs (nan - nan)) with nan. rewrite nan_ltb.
  change (abs nan <? 0x1.0c6f7a0b5ed8dp-20) with false.
  change (nan - (nan - nan) / nan) with nan. exact IH.
Qed.

Lemma bisection_nan (p1 p2 epsilon : float) (fuel : nat) :
  bisection nan p1 p2 epsilon (S (S fuel)) (0, 1, nan) = Some nan.
Proof.
  cbn [bisection]. unfold bisection_step at 1. prim.
  change (0 <? 1) with true. cbv iota.
  rewrite coordinate_nan.
  change (abs (nan - nan)) with nan. rewrite nan_ltb.
  change (nan <? nan) with false. cbv iota.
  change ((nan - 0) * 0.5 + 0) with nan.
  unfold bisection_step. prim. change (0 <? nan) with false. reflexivity.
Qed.

Lemma _getTForCoordinate_nan (p1 p2 epsilon : float) (fuel : nat) :
  negb (isFinite epsilon) || (epsilon <=? 0) = false ->
  _getTForCoordinate nan p1 p2 epsilon (S (S fuel)) = Some (Ok nan).
Proof.
  intros G. rewrite (_getTForCoordinate_run _ _ _ _ _ G), newton_nan.
  unfold fallback. prim.
  change (nan <? 0) with false. change (1 <? nan) with false. cbv iota.
  rewrite bisection_nan. reflexivity.
Qed.

(** X3. For a NaN coordinate and an [epsilon] that passes the guard,
    [getTforX] and [getTforY] throw nothing: on every curve they return NaN,
    from the second turn of the bisection loop. *)
Theorem getTfor_nan (this : Curve float) (epsilon : float) (fuel : nat) :
  negb (isFinite epsilon) || (epsilon <=? 0) = false ->
  getTforX this nan epsilon (S (S fuel)) = Some (Ok nan) /\
  getTforY this nan epsilon (S (S fuel)) = Some (Ok nan).
Proof.
  intros G. unfold getTforX, getTforY.
  split; apply _getTForCoordinate_nan; exact G.
Qed.

Lemma getTfor_nan_witness :
  getTforX (mkCurve 0.25 0.5 0.25 1) nan 0.5 2 = Some (Ok nan) /\
  getTforY (mkCurve 0.25 0.5 0.25 1) nan 0.5 2 = Some (Ok nan).
Proof. exact (getTfor_nan (mkCurve 0.25 0.5 0.25 1) 0.5 0 eq_refl). Defined.

(** *** The errors of [divideAtX] and [divideAtY] *)

Lemma in_unit_range_test (x : float) :
  in_unit x = true -> (x <? 0) || (1 <? x) = false.
Proof.
  rewrite Binary64.in_unit_eq. intros H. apply andb_prop in H as [H0 H1].
  apply orb_false_iff. split.
  - destruct (x <? 0) eqn:E; [|reflexivity].
    apply ltb_compare in E. apply leb_compare in H0.
    rewrite SFcompare_swap, E in H0. simpl in H0.
    destruct H0; discriminate.
  - destruct (1 <? x) eqn:E; [|reflexivity].
    apply ltb_compare in E. apply leb_compare in H1.
    rewrite SFcompare_swap, E in H1. simpl in H1.
    destruct H1; discriminate.
Qed.

Lemma divideAtT_nan (this : Curve float) :
  divideAtT this nan = Throw (RangeError "t" None).
Proof. reflexivity. Qed.

(** X4. The errors of [divideAtX] and [divideAtY], in the order the code
    raises them: a coordinate below 0 or above 1 gives the [RangeError] for
    [x] (for [y]) with the value received, whatever [epsilon] is; a
    coordinate of [0,1] with an [epsilon] that is not finite or is [<= 0]
    gives the [RangeError] for [epsilon]; a NaN coordinate passes the range
    test and, with an [epsilon] that passes the guard, ends in the
    [RangeError] for [t] that [_getAuxPoints] throws. *)
Theorem divideAtXY_errors (this : Curve float) (epsilon : float) (fuel : nat) :
  (forall v, (v <? 0) || (1 <? v) = true ->
     divideAtX this v epsilon fuel = Some (Throw (RangeError "x" (Some v))) /\
     divideAtY this v epsilon fuel = Some (Throw (RangeError "y" (Some v)))) /\
  (forall v, in_unit v = true ->
     negb (isFinite epsilon) || (epsilon <=? 0) = true ->
     divideAtX this v epsilon fuel
     = Some (Throw (RangeError "epsilon" None)) /\
     divideAtY this v epsilon fuel
     = Some (Throw (RangeError "epsilon" None))) /\
  (negb (isFinite epsilon) || (epsilon <=? 0) = false ->
   divideAtX this nan epsilon (S (S fuel))
   = Some (Throw (RangeError "t" None)) /\
   divideAtY this nan epsilon (S (S fuel))
   = Some (Throw (RangeError "t" None))).
Proof.
  split; [|split].
  - intros v H. unfold divideAtX, divideAtY.
    change ((v <? lit_0)%js || (v >? lit_1)%js) with ((v <? 0) || (1 <? v)).
    rewrite H. split; reflexivity.
  - intros v Hv G. unfold divideAtX, divideAtY.
    change ((v <? lit_0)%js || (v >? lit_1)%js) with ((v <? 0) || (1 <? v)).
    rewrite (in_unit_range_test v Hv). cbv iota.
    unfold getTforX, getTforY.
    rewrite (_getTForCoordinate_guard v (_p1x this) (_p2x this) epsilon
               fuel G).
    rewrite (_getTForCoordinate_guard v (_p1y this) (_p2y this) epsilon
               fuel G).
    split; reflexivity.
  - intros G. unfold divideAtX, divideAtY.
    change ((nan <? 0)%js || (nan >? 1)%js) with false. cbv iota.
    unfold getTforX, getTforY.
    rewrite (_getTForCoordinate_nan (_p1x this) (_p2x this) epsilon fuel G).
    rewrite (_getTForCoordinate_nan (_p1y this) (_p2y this) epsilon fuel G).
    rewrite divideAtT_nan. split; reflexivity.
Qed.

(** *** What the constructor lets through *)

Lemma Prim2SF_infinity : Prim2SF infinity = S754_infinity false.
Proof. reflexivity. Qed.

Lemma SFcompare_refl_finite (s : bool) (m : positive) (e : Z) :
  SFcompare (S754_finite s m e) (S754_finite s m e) = Some Eq.
Proof.
  simpl. rewrite Z.compare_refl, Pcompare_refl. destruct s; reflexivity.
Qed.

(** A number that passes [p >= 0 && p <= 1] is neither NaN nor infinite. *)
Lemma in_unit_isFinite (v : float) : in_unit v = true -> isFinite v = true.
Proof.
  rewrite Binary64.in_unit_eq. intros H. apply andb_prop in H as [H0 H1].
  rewrite FloatAxioms.leb_spec, Prim2SF_0 in H0.
  rewrite FloatAxioms.leb_spec, Prim2SF_1 in H1.
  cbn [isFinite binary64]. unfold is_nan, is_infinity.
  rewrite !FloatAxioms.eqb_spec, FloatAxioms.abs_spec, Prim2SF_infinity.
  destruct (Prim2SF v) as [s|s| |s m e].
  - reflexivity.
  - destruct s; discriminate.
  - discriminate.
  - unfold SFeqb at 1. rewrite SFcompare_refl_finite. reflexivity.
Qed.

(** All four control coordinates are finite numbers. *)
Definition finite_coordinates (this : Curve float) : Prop :=
  isFinite (_p1x this) = true /\ isFinite (_p1y this) = true /\
  isFinite (_p2x this) = true /\ isFinite (_p2y this) = true.

Lemma valid_finite (this : Curve float) :
  valid this -> finite_coordinates this.
Proof.
  intros (H1 & H2 & H3 & H4).
  repeat split; apply in_unit_isFinite; assumption.
Qed.

Lemma constructed_valid (p1x p1y p2x p2y : float) (this : Curve float) :
  CubicBezier p1x p1y p2x p2y = Ok this ->
  this = mkCurve p1x p1y p2x p2y /\ valid this.
Proof.
  intros H.
  destruct (CubicBezier_cases p1x p1y p2x p2y)
    as [(E & H1 & H2 & H3 & H4)|(p & v & E & _)]; rewrite E in H;
    [|discriminate].
  injection H as <-. split; [reflexivity|]. repeat split; assumption.
Qed.

(** X5. A curve returned by the constructor holds the four arguments, all
    of them finite numbers of [0,1] (NaN and the infinities are rejected),
    and [clone] on it returns a curve with the same four coordinates. *)
Theorem CubicBezier_invariant (p1x p1y p2x p2y : float) (this : Curve float) :
  CubicBezier p1x p1y p2x p2y = Ok this ->
  valid this /\ finite_coordinates this /\ clone this = Ok this.
Proof.
  intros H. destruct (constructed_valid _ _ _ _ _ H) as [_ V].
  split; [exact V|]. split; [exact (valid_finite this V)|].
  exact (clone_valid this V).
Qed.

Lemma CubicBezier_invariant_witness :
  valid (mkCurve 0.25 0.5 0.25 1) /\
  finite_coordinates (mkCurve 0.25 0.5 0.25 1) /\
  clone (mkCurve 0.25 0.5 0.25 1) = Ok (mkCurve 0.25 0.5 0.25 1).
Proof.
  exact (CubicBezier_invariant 0.25 0.5 0.25 1 (mkCurve 0.25 0.5 0.25 1)
           eq_refl).
Defined.

(** *** What [divideAtT] returns *)

Lemma thrown_by_constructor (p1x p1y p2x p2y : float) (e : exn float) :
  CubicBezier p1x p1y p2x p2y = Throw e ->
  exists p v,
    e = RangeError p (Some v) /\
    In p Binary64.constructor_parameters /\ in_unit v = false.
Proof.
  intros H.
  destruct (CubicBezier_cases p1x p1y p2x p2y)
    as [(E & _)|(p & v & E & Hin & Hv)]; rewrite E in H; [discriminate|].
  injection H as <-. exists p, v. repeat split; try assumption.
  unfold Binary64.constructor_parameters. simpl in Hin |- *.
  destruct Hin as [Hin|[Hin|[Hin|[Hin|[]]]]]; inversion Hin; auto.
Qed.

Lemma linear_curve : linear = Ok (mkCurve 0 0 1 1) /\ valid (mkCurve 0 0 1 1).
Proof. split; [reflexivity|]. repeat split; reflexivity. Qed.

Lemma divideAtT_at_zero (this : Curve float) (t : float) :
  valid this -> (t =? 0) = true ->
  divideAtT this t = Ok (Some (mkCurve 0 0 1 1), Some this).
Proof.
  intros V E. unfold divideAtT.
  change ((t <? lit_0)%js || (t >? lit_1)%js) with ((t <? 0) || (1 <? t)).
  rewrite (in_unit_range_test t (Binary64.zero_in_unit t E)). cbv iota.
  change ((t === lit_0)%js || (t === lit_1)%js) with ((t =? 0) || (t =? 1)).
  rewrite E. cbn [orb].
  rewrite (proj1 linear_curve), (clone_valid this V). cbn [bind].
  rewrite (Binary64.curves_index_0 t _ _ E). reflexivity.
Qed.

(** X6. Whenever [divideAtT] returns, both elements of the array are
    curves whose control coordinates are finite numbers of [0,1]; and for
    [0 < t < 1] the only exceptions it throws are the constructor's, naming
    a control coordinate of a sub-curve and the value that failed the range
    test. *)
Theorem divideAtT_results (this : Curve float) (t : float) :
  (forall a b, divideAtT this t = Ok (a, b) ->
     exists l r, a = Some l /\ b = Some r /\
       valid l /\ valid r /\
       finite_coordinates l /\ finite_coordinates r) /\
  ((0 <? t) = true -> (t <? 1) = true ->
   forall e, divideAtT this t = Throw e ->
     exists p v, e = RangeError p (Some v) /\
       In p Binary64.constructor_parameters /\ in_unit v = false).
Proof.
  assert (W : forall l r : Curve float, valid l -> valid r ->
    exists l' r', Some l = Some l' /\ Some r = Some r' /\
      valid l' /\ valid r' /\
      finite_coordinates l' /\ finite_coordinates r').
  { intros l r Vl Vr. exists l, r.
    repeat split; try apply Vl; try apply Vr; apply valid_finite; assumption. }
  split.
  - intros a b. unfold divideAtT.
    change ((t <? lit_0)%js || (t >? lit_1)%js) with ((t <? 0) || (1 <? t)).
    destruct ((t <? 0) || (1 <? t)); [discriminate|].
    change ((t === lit_0)%js || (t === lit_1)%js) with ((t =? 0) || (t =? 1)).
    destruct (t =? 0) eqn:E0; [|destruct (t =? 1) eqn:E1]; cbn [orb].
    + rewrite (proj1 linear_curve). cbn [bind].
      destruct (clone this) as [k|e] eqn:Ek; cbn [bind]; [|discriminate].
      rewrite (Binary64.curves_index_0 t _ _ E0).
      intros H. injection H as <- <-.
      apply W; [exact (proj2 linear_curve)|].
      exact (proj2 (constructed_valid _ _ _ _ _ Ek)).
    + apply eqb_1_one in E1. subst t.
      rewrite (proj1 linear_curve). cbn [bind].
      destruct (clone this) as [k|e] eqn:Ek; cbn [bind]; [|discriminate].
      rewrite (Binary64.curves_index_1 _ _).
      intros H. injection H as <- <-.
      apply W; [|exact (proj2 linear_curve)].
      exact (proj2 (constructed_valid _ _ _ _ _ Ek)).
    + destruct (_getAuxPoints this t) as [points|e]; cbn [bind];
        [|discriminate].
      match goal with
      | |- context [bind (CubicBezier ?a ?b ?c ?d) _] =>
          destruct (CubicBezier a b c d) as [l|e] eqn:El
      end; cbn [bind]; [|discriminate].
      match goal with
      | |- context [bind (CubicBezier ?a ?b ?c ?d) _] =>
          destruct (CubicBezier a b c d) as [r|e] eqn:Er
      end; cbn [bind]; [|discriminate].
      intros H. injection H as <- <-.
      apply W.
      * exact (proj2 (constructed_valid _ _ _ _ _ El)).
      * exact (proj2 (constructed_valid _ _ _ _ _ Er)).
  - intros H0 H1 e. unfold divideAtT.
    change ((t <? lit_0)%js || (t >? lit_1)%js) with ((t <? 0) || (1 <? t)).
    rewrite (in_unit_range_test t (Binary64.interior_in_unit t H0 H1)).
    cbv iota.
    change ((t === lit_0)%js || (t === lit_1)%js) with ((t =? 0) || (t =? 1)).
    destruct (Binary64.interior_tests t H0 H1) as [E0 E1].
    rewrite E0, E1. cbn [orb].
    unfold _getAuxPoints.
    change (negb (t >? lit_0)%js || negb (t <? lit_1)%js)
      with (negb (0 <? t) || negb (t <? 1)).
    rewrite H0, H1. cbn [negb orb bind].
    match goal with
    | |- context [bind (CubicBezier ?a ?b ?c ?d) _] =>
        destruct (CubicBezier a b c d) as [l|el] eqn:El
    end; cbn [bind].
    + match goal with
      | |- context [bind (CubicBezier ?a ?b ?c ?d) _] =>
          destruct (CubicBezier a b c d) as [r|er] eqn:Er
      end; cbn [bind]; [discriminate|].
      intros H. injection H as <-.
      exact (thrown_by_constructor _ _ _ _ _ Er).
    + intros H. injection H as <-.
      exact (thrown_by_constructor _ _ _ _ _ El).
Qed.

(** X7. [divideAtT] takes negative zero for 0: on a valid curve, every [t]
    with [t === 0] gives the curve of [linear()] on the left and the
    original's control points on the right, the index [1 - t] being 1 for
    both zeros. *)
Theorem divideAtT_signed_zero (this : Curve float) (t : float) :
  valid this -> (t =? 0) = true ->
  exists line,
    linear = Ok line /\ divideAtT this t = Ok (Some line, Some this).
Proof.
  intros V E. exists (mkCurve 0 0 1 1). split; [reflexivity|].
  exact (divideAtT_at_zero this t V E).
Qed.

Lemma divideAtT_signed_zero_witness :
  exists line,
    linear = Ok line /\
    divideAtT (mkCurve 0.25 0.5 0.25 1) (-0)
    = Ok (Some line, Some (mkCurve 0.25 0.5 0.25 1)).
Proof.
  refine (divideAtT_signed_zero (mkCurve 0.25 0.5 0.25 1) (-0) _ eq_refl).
  repeat split; reflexivity.
Defined.

(** *** Inversions that return *)

Lemma _getTForCoordinate_returns_witness :
  within_tolerance 0.5 0 1 0.125 0.5 \/
  ((0.5 <? 0) = true /\ 0.5 = 0) \/
  ((1 <? 0.5) = true /\ 0.5 = 1) \/
  (exists t0 t1,
     bisection_reaches 0.5 0 1 0.125 (t0, t1, 0.5) /\ (t0 <? t1) = false).
Proof.
  exact (_getTForCoordinate_returns 0.5 0 1 0.125 0 0.5 eq_refl).
Defined.

Lemma _getTForCoordinate_outside_witness :
  exists t,
    (forall fuel, _getTForCoordinate 2 0.25 0.25 0.125 fuel = Some (Ok t)) /\
    (within_tolerance 2 0.25 0.25 0.125 t \/ t = if 2 <? 0 then 0 else 1).
Proof.
  refine (_getTForCoordinate_outside 2 0.25 0.25 0.125 eq_refl _).
  right. reflexivity.
Defined.

(** *** When [getPointForT] returns *)

(** X13. [getPointForT] returns a point exactly for the parameters that
    pass [0 <= t && t <= 1]; for every other number, NaN included, it
    throws. *)
Theorem getPointForT_returns_iff (this : Curve float) (t : float) :
  (exists point, getPointForT this t = Ok point) <-> in_unit t = true.
Proof.
  split.
  - intros [point H]. destruct (in_unit t) eqn:U; [reflexivity|].
    destruct (Binary64.outside_tests t U) as (E0 & E1 & E).
    unfold getPointForT in H. prim. rewrite E0, E1, E in H. discriminate.
  - intros U.
    destruct (Binary64.in_unit_cases t U) as [E|[E|(E0 & E1 & H0 & H1)]].
    + exists (t, t). unfold getPointForT. prim. rewrite E. reflexivity.
    + exists (t, t). unfold getPointForT. prim.
      rewrite E, orb_true_r. reflexivity.
    + eexists. exact (Binary64.getPointForT_interior this t H0 H1).
Qed.

End Binary64Edge.

(** ** The curve in exact arithmetic, continued *)

Module ExactCurve.

Import Exact.
Local Open Scope Q_scope.

(** The cubic of one axis in Bernstein form. *)
Lemma coordinate_bernstein (t p1 p2 : Q) :
  _getCoordinateForT t p1 p2 ==
    3 * (t * (1 - t) * (1 - t) * p1) + 3 * (t * t * (1 - t) * p2) + t * t * t.
Proof.
  unfold _getCoordinateForT. cbn [add sub mul lit_1 lit_3 exact]. ring.
Qed.

(** X8. [_getCoordinateDerivateForT] is the derivative of
    [_getCoordinateForT]: in exact arithmetic the increment of the cubic
    from [t] to [t + h] is [h] times the derivative at [t], plus a remainder
    with the factor [h * h]. *)
Theorem derivative_of_coordinate (t h p1 p2 : Q) :
  let c := 3 * p1 in
  let b := 3 * (p2 - p1) - c in
  let a := 1 - c - b in
  _getCoordinateForT (t + h) p1 p2 - _getCoordinateForT t p1 p2 ==
    h * _getCoordinateDerivateForT t p1 p2
    + h * h * (3 * a * t + b + a * h).
Proof.
  unfold _getCoordinateForT, _getCoordinateDerivateForT.
  cbn [add sub mul lit_1 lit_2 lit_3 exact]. cbv zeta. ring.
Qed.

Lemma unit_product (t p : Q) :
  0 <= t <= 1 -> 0 <= p <= 1 -> 0 <= t * p <= 1.
Proof.
  intros [T0 T1] [P0 P1].
  assert (A : 0 <= t * p) by (apply Qmult_le_0_compat; assumption).
  assert (B : 0 <= (1 - t) * p) by (apply Qmult_le_0_compat; lra).
  split; lra.
Qed.

(** A point between two numbers of [0,1] is in [0,1]. *)
Lemma unit_interpolation (t a b : Q) :
  0 <= t <= 1 -> 0 <= a <= 1 -> 0 <= b <= 1 -> 0 <= a + t * (b - a) <= 1.
Proof.
  intros [T0 T1] [A0 A1] [B0 B1].
  assert (H1 : 0 <= t * b) by (apply Qmult_le_0_compat; assumption).
  assert (H2 : 0 <= (1 - t) * a) by (apply Qmult_le_0_compat; lra).
  assert (H3 : 0 <= t * (1 - b)) by (apply Qmult_le_0_compat; lra).
  assert (H4 : 0 <= (1 - t) * (1 - a)) by (apply Qmult_le_0_compat; lra).
  split; lra.
Qed.

(** X9. In exact arithmetic, for a valid curve and [0 < t < 1], each of the
    twelve numbers [_getAuxPoints] returns (the coordinates of [i0], [i1],
    [i2], [j0], [j1] and [k]) lies in [0,1]. *)
Theorem _getAuxPoints_in_unit_square (this : Curve Q) (t : Q) :
  valid this -> 0 < t -> t < 1 ->
  exists points,
    _getAuxPoints this t = Ok points /\
    List.length points = 12%nat /\
    Forall (fun v => 0 <= v <= 1) points.
Proof.
  intros (V1x & V1y & V2x & V2y) H0 H1.
  apply in_unit_iff in V1x, V1y, V2x, V2y.
  assert (T : 0 <= t <= 1) by (split; lra).
  assert (One : 0 <= 1 <= 1) by (split; lra).
  unfold _getAuxPoints. cbn [lit_0 lit_1 exact].
  apply lt_iff in H0, H1. rewrite H0, H1. cbn [negb orb].
  eexists. split; [reflexivity|]. split; [reflexivity|].
  cbn [add sub mul exact].
  destruct this as [p1x p1y p2x p2y]. cbn [_p1x _p1y _p2x _p2y] in *.
  pose proof (unit_product _ _ T V1x) as I0x.
  pose proof (unit_product _ _ T V1y) as I0y.
  pose proof (unit_interpolation _ _ _ T V1x V2x) as I1x.
  pose proof (unit_interpolation _ _ _ T V1y V2y) as I1y.
  pose proof (unit_interpolation _ _ _ T V2x One) as I2x.
  pose proof (unit_interpolation _ _ _ T V2y One) as I2y.
  pose proof (unit_interpolation _ _ _ T I0x I1x) as J0x.
  pose proof (unit_interpolation _ _ _ T I0y I1y) as J0y.
  pose proof (unit_interpolation _ _ _ T I1x I2x) as J1x.
  pose proof (unit_interpolation _ _ _ T I1y I2y) as J1y.
  pose proof (unit_interpolation _ _ _ T J0x J1x) as Kx.
  pose proof (unit_interpolation _ _ _ T J0y J1y) as Ky.
  repeat (apply Forall_cons; [assumption|]). apply Forall_nil.
Qed.

Lemma _getAuxPoints_in_unit_square_witness :
  exists points,
    _getAuxPoints (mkCurve (1 # 4) (1 # 10) (1 # 4) 1) (1 # 2) = Ok points /\
    List.length points = 12%nat /\
    Forall (fun v => 0 <= v <= 1) points.
Proof.
  refine (_getAuxPoints_in_unit_square
            (mkCurve (1 # 4) (1 # 10) (1 # 4) 1) (1 # 2) _ eq_refl eq_refl).
  repeat split; reflexivity.
Defined.

Lemma coordinate_in_unit (t p1 p2 : Q) :
  0 <= t <= 1 -> 0 <= p1 <= 1 -> 0 <= p2 <= 1 ->
  0 <= _getCoordinateForT t p1 p2 <= 1.
Proof.
  intros [T0 T1] P1 P2. rewrite coordinate_bernstein.
  destruct (Qle_lt_or_eq _ _ T0) as [T0'|T0'].
  - destruct (Qle_lt_or_eq _ _ T1) as [T1'|T1'].
    + destruct (bernstein_interior t p1 p2 T0' T1' P1 P2). split; lra.
    + rewrite T1'. split; ring_simplify; lra.
  - rewrite <- T0'. split; ring_simplify; lra.
Qed.

(** X10. In exact arithmetic, for a valid curve and [0 <= t <= 1],
    [getPointForT] returns a point of the unit square whose coordinates are
    the values of the two cubics at [t]; the endpoints returned without
    evaluating the polynomial are the polynomial's values as well. *)
Theorem getPointForT_unit_square (this : Curve Q) (t : Q) :
  valid this -> 0 <= t <= 1 ->
  exists x y,
    getPointForT this t = Ok (x, y) /\
    x == _getCoordinateForT t (_p1x this) (_p2x this) /\
    y == _getCoordinateForT t (_p1y this) (_p2y this) /\
    0 <= x <= 1 /\ 0 <= y <= 1.
Proof.
  intros (V1x & V1y & V2x & V2y) T.
  apply in_unit_iff in V1x, V1y, V2x, V2y.
  pose proof (coordinate_in_unit t _ _ T V1x V2x) as Bx.
  pose proof (coordinate_in_unit t _ _ T V1y V2y) as By.
  unfold getPointForT. cbn [strict_eq lit_0 lit_1 exact].
  destruct (Qeq_bool t 0) eqn:E0; [|destruct (Qeq_bool t 1) eqn:E1];
    cbn [orb].
  - apply Qeq_bool_iff in E0. exists t, t. split; [reflexivity|].
    repeat split; try apply T;
      rewrite coordinate_bernstein, E0; ring.
  - apply Qeq_bool_iff in E1. exists t, t. split; [reflexivity|].
    repeat split; try apply T;
      rewrite coordinate_bernstein, E1; ring.
  - apply Qeq_bool_neq in E0, E1. destruct T as [T0 T1].
    assert (H0 : 0 < t).
    { destruct (Qle_lt_or_eq _ _ T0) as [H|H]; [exact H|].
      exfalso. apply E0. symmetry. exact H. }
    assert (H1 : t < 1).
    { destruct (Qle_lt_or_eq _ _ T1) as [H|H]; [exact H|].
      exfalso. apply E1. exact H. }
    apply lt_iff in H0, H1. rewrite H0, H1. cbn [negb orb].
    eexists. eexists. split; [reflexivity|].
    repeat split; try reflexivity;
      try apply Bx; try apply By.
Qed.

Lemma getPointForT_unit_square_witness :
  exists x y,
    getPointForT (mkCurve (1 # 4) (1 # 10) (1 # 4) 1) (1 # 2) = Ok (x, y) /\
    x == _getCoordinateForT (1 # 2) (1 # 4) (1 # 4) /\
    y == _getCoordinateForT (1 # 2) (1 # 10) 1 /\
    0 <= x <= 1 /\ 0 <= y <= 1.
Proof.
  refine (getPointForT_unit_square
            (mkCurve (1 # 4) (1 # 10) (1 # 4) 1) (1 # 2) _ _).
  - repeat split; reflexivity.
  - split; unfold Qle; simpl; lia.
Defined.

(** *** Subdivision keeps the shape *)

Lemma division_point_identity (t p1 p2 : Q) :
  let i0 := t * p1 in
  let i1 := p1 + t * (p2 - p1) in
  let i2 := p2 + t * (1 - p2) in
  let j0 := i0 + t * (i1 - i0) in
  let j1 := i1 + t * (i2 - i1) in
  j0 + t * (j1 - j0) == _getCoordinateForT t p1 p2.
Proof.
  cbv zeta. unfold _getCoordinateForT. cbn [add sub mul lit_1 lit_3 exact].
  ring.
Qed.

(** The left curve of De Casteljau's construction, scaled back by [k]. *)
Lemma left_piece (s t p1 p2 : Q) :
  0 < _getCoordinateForT t p1 p2 ->
  let i0 := t * p1 in
  let i1 := p1 + t * (p2 - p1) in
  let i2 := p2 + t * (1 - p2) in
  let j0 := i0 + t * (i1 - i0) in
  let j1 := i1 + t * (i2 - i1) in
  let k := j0 + t * (j1 - j0) in
  _getCoordinateForT s (i0 / k) (j0 / k) * _getCoordinateForT t p1 p2
  == _getCoordinateForT (s * t) p1 p2.
Proof.
  intros K. cbv zeta.
  pose proof (division_point_identity t p1 p2) as E. cbv zeta in E.
  set (k := t * p1 + t * (p1 + t * (p2 - p1) - t * p1) + _) in *.
  assert (Hk : ~ k == 0) by (rewrite E; lra).
  rewrite <- E.
  unfold _getCoordinateForT. cbn [add sub mul lit_1 lit_3 exact].
  field_simplify_eq; [|exact Hk].
  unfold k. ring.
Qed.

(** The right curve, mapped back onto [[k, 1]]. *)
Lemma right_piece (s t p1 p2 : Q) :
  _getCoordinateForT t p1 p2 < 1 ->
  let i0 := t * p1 in
  let i1 := p1 + t * (p2 - p1) in
  let i2 := p2 + t * (1 - p2) in
  let j0 := i0 + t * (i1 - i0) in
  let j1 := i1 + t * (i2 - i1) in
  let k := j0 + t * (j1 - j0) in
  _getCoordinateForT s ((j1 - k) / (1 - k)) ((i2 - k) / (1 - k))
  * (1 - _getCoordinateForT t p1 p2) + _getCoordinateForT t p1 p2
  == _getCoordinateForT (t + s * (1 - t)) p1 p2.
Proof.
  intros K. cbv zeta.
  pose proof (division_point_identity t p1 p2) as E. cbv zeta in E.
  set (k := t * p1 + t * (p1 + t * (p2 - p1) - t * p1) + _) in *.
  assert (Hk : ~ 1 - k == 0) by (rewrite E; lra).
  rewrite <- E.
  unfold _getCoordinateForT. cbn [add sub mul lit_1 lit_3 exact].
  field_simplify_eq; [|exact Hk].
  unfold k. ring.
Qed.

Lemma constructed (a b c d : Q) (this : Curve Q) :
  CubicBezier a b c d = Ok this -> this = mkCurve a b c d.
Proof.
  intros H.
  destruct (CubicBezier_cases a b c d) as [(E & _)|(p & v & E & _)];
    rewrite E in H; [|discriminate].
  injection H as <-. reflexivity.
Qed.

Lemma interior_point (t p1 p2 : Q) :
  0 < t -> t < 1 -> 0 <= p1 <= 1 -> 0 <= p2 <= 1 ->
  0 < _getCoordinateForT t p1 p2 < 1.
Proof.
  intros H0 H1 P1 P2. rewrite coordinate_bernstein.
  exact (bernstein_interior t p1 p2 H0 H1 P1 P2).
Qed.

(** X11. In exact arithmetic, the two curves [divideAtT] returns for a
    valid curve and [0 < t < 1] are the two pieces of the original, each
    stretched back onto the unit square: with [(X t, Y t)] the point of the
    original at [t], the left curve at [s] is the original at [s * t]
    divided by [(X t, Y t)], and the right curve at [s] is the original at
    [t + s * (1 - t)] moved by [(X t, Y t)] and divided by
    [(1 - X t, 1 - Y t)]. *)
Theorem divideAtT_pieces (this l r : Curve Q) (t s : Q) :
  valid this -> 0 < t -> t < 1 ->
  divideAtT this t = Ok (Some l, Some r) ->
  let X := fun u => _getCoordinateForT u (_p1x this) (_p2x this) in
  let Y := fun u => _getCoordinateForT u (_p1y this) (_p2y this) in
  _getCoordinateForT s (_p1x l) (_p2x l) * X t == X (s * t) /\
  _getCoordinateForT s (_p1y l) (_p2y l) * Y t == Y (s * t) /\
  _getCoordinateForT s (_p1x r) (_p2x r) * (1 - X t) + X t
  == X (t + s * (1 - t)) /\
  _getCoordinateForT s (_p1y r) (_p2y r) * (1 - Y t) + Y t
  == Y (t + s * (1 - t)).
Proof.
  intros (V1x & V1y & V2x & V2y) H0 H1 D. cbv zeta.
  apply in_unit_iff in V1x, V1y, V2x, V2y.
  pose proof (interior_point t _ _ H0 H1 V1x V2x) as [Kx0 Kx1].
  pose proof (interior_point t _ _ H0 H1 V1y V2y) as [Ky0 Ky1].
  destruct this as [p1x p1y p2x p2y]. cbn [_p1x _p1y _p2x _p2y] in *.
  unfold divideAtT, _getAuxPoints in D.
  cbn [lit_0 lit_1 exact _p1x _p1y _p2x _p2y] in D.
  assert (G : (lt t 0 || lt 1 t) = false).
  { apply orb_false_iff.
    split; apply not_true_iff_false; intros H; apply lt_iff in H; lra. }
  assert (B : (strict_eq t 0 || strict_eq t 1) = false).
  { apply orb_false_iff. cbn [strict_eq exact].
    split; apply not_true_iff_false; intros H; apply Qeq_bool_iff in H; lra. }
  rewrite G, B in D.
  pose proof (proj2 (lt_iff 0 t) H0) as L0.
  pose proof (proj2 (lt_iff t 1) H1) as L1.
  rewrite L0, L1 in D. cbn [negb orb bind at_index nth] in D.
  match type of D with
  | bind (CubicBezier ?a ?b ?c ?d) _ = _ =>
      destruct (CubicBezier a b c d) as [l'|e] eqn:El; [|discriminate]
  end.
  cbn [bind] in D.
  match type of D with
  | bind (CubicBezier ?a ?b ?c ?d) _ = _ =>
      destruct (CubicBezier a b c d) as [r'|e] eqn:Er; [|discriminate]
  end.
  cbn [bind] in D. injection D as <- <-.
  apply constructed in El, Er. subst l' r'. cbn [_p1x _p1y _p2x _p2y].
  cbn [add sub mul div lit_1 exact].
  split; [|split; [|split]].
  - exact (left_piece s t p1x p2x Kx0).
  - exact (left_piece s t p1y p2y Ky0).
  - exact (right_piece s t p1x p2x Kx1).
  - exact (right_piece s t p1y p2y Ky1).
Qed.

Lemma divideAtT_pieces_witness :
  exists l r,
    divideAtT (mkCurve 0 0 1 1) (1 # 2) = Ok (Some l, Some r) /\
    _getCoordinateForT (1 # 4) (_p1x l) (_p2x l)
    * _getCoordinateForT (1 # 2) 0 1
    == _getCoordinateForT ((1 # 4) * (1 # 2)) 0 1.
Proof.
  eexists. eexists. split; [vm_compute; reflexivity|].
  refine (proj1 (divideAtT_pieces (mkCurve 0 0 1 1) _ _ (1 # 2) (1 # 4)
                   _ eq_refl eq_refl _)).
  - repeat split; reflexivity.
  - vm_compute. reflexivity.
Defined.

(** *** Inversion in exact arithmetic *)

(** The increment of the cubic between two parameters. *)
Lemma coordinate_increment (u v p1 p2 : Q) :
  _getCoordinateForT v p1 p2 - _getCoordinateForT u p1 p2 ==
  (v - u) * ((1 + 3 * p1 - 3 * p2) * (v * v + u * v + u * u)
             + (3 * p2 - 6 * p1) * (u + v) + 3 * p1).
Proof.
  unfold _getCoordinateForT. cbn [add sub mul lit_1 lit_3 exact]. ring.
Qed.

Lemma slope_bounds (u v p1 p2 : Q) :
  0 <= u <= 1 -> 0 <= v <= 1 -> 0 <= p1 <= 1 -> 0 <= p2 <= 1 ->
  -(21) <= (1 + 3 * p1 - 3 * p2) * (v * v + u * v + u * u)
           + (3 * p2 - 6 * p1) * (u + v) + 3 * p1 <= 21.
Proof.
  intros [U0 U1] [V0 V1] [P0 P1] [R0 R1].
  assert (Q0 : 0 <= v * v + u * v + u * u).
  { assert (0 <= v * v) by (apply Qmult_le_0_compat; assumption).
    assert (0 <= u * v) by (apply Qmult_le_0_compat; assumption).
    assert (0 <= u * u) by (apply Qmult_le_0_compat; assumption). lra. }
  assert (Q3 : v * v + u * v + u * u <= 3).
  { assert (0 <= v * (1 - v)) by (apply Qmult_le_0_compat; lra).
    assert (0 <= u * (1 - v)) by (apply Qmult_le_0_compat; lra).
    assert (0 <= u * (1 - u)) by (apply Qmult_le_0_compat; lra). lra. }
  assert (A1 : 0 <= (4 - (1 + 3 * p1 - 3 * p2)) * (v * v + u * v + u * u))
    by (apply Qmult_le_0_compat; lra).
  assert (A2 : 0 <= ((1 + 3 * p1 - 3 * p2) + 2) * (v * v + u * v + u * u))
    by (apply Qmult_le_0_compat; lra).
  assert (B1 : 0 <= (3 - (3 * p2 - 6 * p1)) * (u + v))
    by (apply Qmult_le_0_compat; lra).
  assert (B2 : 0 <= ((3 * p2 - 6 * p1) + 6) * (u + v))
    by (apply Qmult_le_0_compat; lra).
  split; lra.
Qed.

(** On [0,1] the cubic of a valid curve changes at most 21 times as fast
    as its parameter. *)
Lemma coordinate_lipschitz (u v p1 p2 : Q) :
  0 <= u -> u <= v -> v <= 1 -> 0 <= p1 <= 1 -> 0 <= p2 <= 1 ->
  Qabs (_getCoordinateForT v p1 p2 - _getCoordinateForT u p1 p2)
  <= 21 * (v - u).
Proof.
  intros U0 UV V1 P1 P2.
  assert (U : 0 <= u <= 1) by (split; lra).
  assert (V : 0 <= v <= 1) by (split; lra).
  destruct (slope_bounds u v p1 p2 U V P1 P2) as [G0 G1].
  rewrite coordinate_increment.
  set (g := (1 + 3 * p1 - 3 * p2) * (v * v + u * v + u * u)
            + (3 * p2 - 6 * p1) * (u + v) + 3 * p1) in *.
  assert (A : 0 <= (v - u) * (21 - g)) by (apply Qmult_le_0_compat; lra).
  assert (B : 0 <= (v - u) * (g + 21)) by (apply Qmult_le_0_compat; lra).
  apply Qabs_Qle_condition. split; lra.
Qed.

Lemma lt_false_iff (x y : Q) : lt x y = false <-> y <= x.
Proof.
  rewrite <- not_true_iff_false, lt_iff. split.
  - apply Qnot_lt_le.
  - intros H H'. apply (Qlt_not_le _ _ H'). exact H.
Qed.

Fixpoint pow2 (d : nat) : Q :=
  match d with
  | O => 1
  | S d' => 2 * pow2 d'
  end.

Lemma pow2_above (d : nat) : inject_Z (Z.of_nat d) < pow2 d.
Proof.
  induction d as [|d IH]; [reflexivity|].
  rewrite Nat2Z.inj_succ. unfold Z.succ. rewrite inject_Z_plus.
  cbn [pow2].
  assert (H : 0 <= inject_Z (Z.of_nat d)).
  { change 0 with (inject_Z 0). rewrite <- Zle_Qle. lia. }
  change (inject_Z 1) with 1.
  destruct (Nat.eq_dec d 0) as [->|Hd].
  - reflexivity.
  - assert (1 <= inject_Z (Z.of_nat d)).
    { change 1 with (inject_Z 1). rewrite <- Zle_Qle. lia. }
    lra.
Qed.

Lemma pow2_reaches (bound eps : Q) :
  0 < eps -> exists d, bound < eps * pow2 d.
Proof.
  intros He.
  destruct eps as [en ed]. destruct bound as [bn bd].
  assert (Hen : (0 < en)%Z).
  { unfold Qlt in He. simpl in He. lia. }
  exists (Z.to_nat (Z.abs bn * Z.pos ed + 1)).
  apply Qlt_le_trans with
    ((en # ed) * inject_Z (Z.of_nat (Z.to_nat (Z.abs bn * Z.pos ed + 1)))).
  - rewrite Z2Nat.id by lia.
    unfold Qlt, Qmult, inject_Z. simpl.
    assert (bn <= Z.abs bn)%Z by lia.
    assert (0 <= Z.abs bn)%Z by lia.
    nia.
  - apply Qmult_le_l; [exact He|]. apply Qlt_le_weak, pow2_above.
Qed.

Lemma coordinate_respects (u v p1 p2 : Q) :
  u == v -> _getCoordinateForT u p1 p2 == _getCoordinateForT v p1 p2.
Proof.
  intros E. unfold _getCoordinateForT. cbn [add sub mul lit_1 lit_3 exact].
  rewrite E. reflexivity.
Qed.

Section Bisection.

Variables (c p1 p2 epsilon : Q).
Hypothesis (P1 : 0 <= p1 <= 1) (P2 : 0 <= p2 <= 1).
Hypothesis (E : 0 < epsilon).

Let f (t : Q) : Q := _getCoordinateForT t p1 p2.

(** The bracket the loop keeps: [t0 <= t2 <= t1] inside [0,1], with the
    target between the values at the two bounds. *)
Definition bracket (s : @bisection_state Q) : Prop :=
  let '(t0, t1, t2) := s in
  0 <= t0 /\ t0 <= t2 /\ t2 <= t1 /\ t1 <= 1 /\ f t0 <= c /\ c <= f t1.

Definition centred (s : @bisection_state Q) : Prop :=
  let '(t0, t1, t2) := s in t2 == (t1 - t0) * (1 # 2) + t0.

Definition width (s : @bisection_state Q) : Q :=
  let '(t0, t1, _) := s in t1 - t0.

(** Inside a bracket the residual is bounded by the bracket's width. *)
Lemma residual_in_bracket (t0 t1 t2 : Q) :
  bracket (t0, t1, t2) -> Qabs (f t2 - c) <= 21 * (t1 - t0).
Proof.
  intros (B0 & B1 & B2 & B3 & B4 & B5).
  pose proof (coordinate_lipschitz t0 t2 p1 p2) as L0.
  pose proof (coordinate_lipschitz t2 t1 p1 p2) as L1.
  assert (H0 : Qabs (f t2 - f t0) <= 21 * (t2 - t0))
    by (apply L0; try assumption; lra).
  assert (H1 : Qabs (f t1 - f t2) <= 21 * (t1 - t2))
    by (apply L1; try assumption; lra).
  apply Qabs_Qle_condition in H0, H1. apply Qabs_Qle_condition.
  split; lra.
Qed.

Lemma bisection_step_exact (t0 t1 t2 : Q) :
  bisection_step c p1 p2 epsilon (t0, t1, t2) =
    if lt t0 t1 then
      if lt (Qabs (f t2 - c)) epsilon then Return t2
      else if lt (f t2) c
           then Continue (t2, t1, (t1 - t2) * (1 # 2) + t2)
           else Continue (t0, t2, (t2 - t0) * (1 # 2) + t0)
    else Return t2.
Proof.
  unfold bisection_step.
  destruct (lt t0 t1); [|reflexivity].
  change (Math_abs (sub (_getCoordinateForT t2 p1 p2) c))
    with (Qabs (f t2 - c)).
  destruct (lt (Qabs (f t2 - c)) epsilon); [reflexivity|].
  change (_getCoordinateForT t2 p1 p2) with (f t2).
  destruct (lt (f t2) c); reflexivity.
Qed.

(** A centred bracket of width below [epsilon * 2^d / 21] is left within
    [d] further turns, with an estimate within tolerance. *)
Lemma bisection_converges (d : nat) :
  forall s,
    bracket s -> centred s -> 21 * width s < epsilon * pow2 d ->
    exists t,
      (forall fuel, (d < fuel)%nat ->
         bisection c p1 p2 epsilon fuel s = Some t) /\
      Qabs (f t - c) < epsilon.
Proof.
  induction d as [|d IH]; intros [[t0 t1] t2] B Ce W;
    pose proof (residual_in_bracket t0 t1 t2 B) as R;
    pose proof B as (B0 & B1 & B2 & B3 & B4 & B5);
    cbn [width centred pow2] in *.
  - exists t2. assert (T : Qabs (f t2 - c) < epsilon) by lra.
    split; [|exact T].
    intros [|fuel] Hf; [lia|]. cbn [bisection].
    rewrite bisection_step_exact.
    destruct (lt t0 t1); [|reflexivity].
    apply lt_iff in T. rewrite T. reflexivity.
  - destruct (lt t0 t1) eqn:L01.
    + destruct (lt (Qabs (f t2 - c)) epsilon) eqn:T.
      * exists t2. split; [|apply lt_iff; exact T].
        intros [|fuel] Hf; [lia|]. cbn [bisection].
        rewrite bisection_step_exact, L01, T. reflexivity.
      * apply lt_iff in L01.
        destruct (lt (f t2) c) eqn:Lc.
        -- apply lt_iff in Lc.
           destruct (IH (t2, t1, (t1 - t2) * (1 # 2) + t2)) as (t & Ht & Tt).
           ++ cbn [bracket]. repeat split; lra.
           ++ cbn [centred]. reflexivity.
           ++ cbn [width]. lra.
           ++ exists t. split; [|exact Tt].
              intros [|fuel] Hf; [lia|]. cbn [bisection].
              rewrite bisection_step_exact.
              rewrite (proj2 (lt_iff t0 t1) L01), T.
              rewrite (proj2 (lt_iff (f t2) c) Lc).
              apply Ht. lia.
        -- apply lt_false_iff in Lc.
           destruct (IH (t0, t2, (t2 - t0) * (1 # 2) + t0)) as (t & Ht & Tt).
           ++ cbn [bracket]. repeat split; lra.
           ++ cbn [centred]. reflexivity.
           ++ cbn [width]. lra.
           ++ exists t. split; [|exact Tt].
              intros [|fuel] Hf; [lia|]. cbn [bisection].
              rewrite bisection_step_exact.
              rewrite (proj2 (lt_iff t0 t1) L01), T.
              rewrite (proj2 (lt_false_iff (f t2) c) Lc).
              apply Ht. lia.
    + apply lt_false_iff in L01.
      exists t2. split.
      * intros [|fuel] Hf; [lia|]. cbn [bisection].
        rewrite bisection_step_exact.
        rewrite (proj2 (lt_false_iff t0 t1) L01). reflexivity.
      * lra.
Qed.

End Bisection.

Lemma _getTForCoordinate_converges (c p1 p2 epsilon : Q) :
  0 <= p1 <= 1 -> 0 <= p2 <= 1 -> 0 <= c <= 1 -> 0 < epsilon ->
  exists n t,
    (forall fuel, (n <= fuel)%nat ->
       _getTForCoordinate c p1 p2 epsilon fuel = Some (Ok t)) /\
    Qabs (_getCoordinateForT t p1 p2 - c) < epsilon.
Proof.
  intros P1 P2 [C0 C1] E.
  assert (G : negb (isFinite epsilon) || le epsilon lit_0 = false).
  { cbn [isFinite lit_0 exact negb orb].
    apply not_true_iff_false. intros H. apply le_iff in H. lra. }
  destruct (pow2_reaches 21 epsilon E) as [d Hd].
  exists (S (S d)).
  destruct (newton c p1 p2 epsilon 8 c) as [[]|r] eqn:En.
  - assert (F0 : _getCoordinateForT 0 p1 p2 == 0)
      by (rewrite coordinate_bernstein; ring).
    assert (F1 : _getCoordinateForT 1 p1 p2 == 1)
      by (rewrite coordinate_bernstein; ring).
    assert (B : bracket c p1 p2 (0, 1, c)).
    { cbn [bracket]. repeat split; lra. }
    assert (Run : forall fuel,
      _getTForCoordinate c p1 p2 epsilon fuel
      = option_map Ok (bisection c p1 p2 epsilon fuel (0, 1, c))).
    { intros fuel. rewrite (_getTForCoordinate_run c p1 p2 epsilon fuel G), En.
      unfold fallback. cbn [lit_0 lit_1 exact].
      rewrite (proj2 (lt_false_iff c 0) C0), (proj2 (lt_false_iff 1 c) C1).
      reflexivity. }
    assert (L01 : lt 0 1 = true) by reflexivity.
    destruct (lt (Qabs (_getCoordinateForT c p1 p2 - c)) epsilon) eqn:T.
    + exists c. split; [|apply lt_iff; exact T].
      intros [|fuel] Hf; [lia|]. rewrite Run. cbn [bisection].
      rewrite bisection_step_exact, L01, T. reflexivity.
    + destruct (lt (_getCoordinateForT c p1 p2) c) eqn:Lc.
      * apply lt_iff in Lc.
        destruct (bisection_converges c p1 p2 epsilon P1 P2 E d
                    (c, 1, (1 - c) * (1 # 2) + c)) as (t & Ht & Tt).
        -- cbn [bracket]. repeat split; lra.
        -- cbn [centred]. reflexivity.
        -- cbn [width]. lra.
        -- exists t. split; [|exact Tt].
           intros [|fuel] Hf; [lia|]. rewrite Run. cbn [bisection].
           rewrite bisection_step_exact, L01, T.
           rewrite (proj2 (lt_iff _ _) Lc).
           rewrite (Ht fuel) by lia. reflexivity.
      * apply lt_false_iff in Lc.
        destruct (bisection_converges c p1 p2 epsilon P1 P2 E d
                    (0, c, (c - 0) * (1 # 2) + 0)) as (t & Ht & Tt).
        -- cbn [bracket]. repeat split; lra.
        -- cbn [centred]. reflexivity.
        -- cbn [width]. lra.
        -- exists t. split; [|exact Tt].
           intros [|fuel] Hf; [lia|]. rewrite Run. cbn [bisection].
           rewrite bisection_step_exact, L01, T.
           rewrite (proj2 (lt_false_iff _ _) Lc).
           rewrite (Ht fuel) by lia. reflexivity.
  - exists r. split.
    + intros fuel _.
      rewrite (_getTForCoordinate_run c p1 p2 epsilon fuel G), En.
      reflexivity.
    + apply lt_iff. exact (newton_return c p1 p2 epsilon 8 c r En).
Qed.

(** X12. In exact arithmetic the inversion of a valid curve always ends
    within tolerance: for a coordinate of [0,1] and [epsilon > 0], [getTforX]
    and [getTforY] return, once the bisection loop is allowed enough turns,
    a parameter at which the cubic of the axis is closer than [epsilon] to
    the coordinate asked for. *)
Theorem getTfor_converges (this : Curve Q) (v epsilon : Q) :
  valid this -> 0 <= v <= 1 -> 0 < epsilon ->
  (exists n t,
     (forall fuel, (n <= fuel)%nat ->
        getTforX this v epsilon fuel = Some (Ok t)) /\
     Qabs (_getCoordinateForT t (_p1x this) (_p2x this) - v) < epsilon) /\
  (exists n t,
     (forall fuel, (n <= fuel)%nat ->
        getTforY this v epsilon fuel = Some (Ok t)) /\
     Qabs (_getCoordinateForT t (_p1y this) (_p2y this) - v) < epsilon).
Proof.
  intros (V1x & V1y & V2x & V2y) V E.
  apply in_unit_iff in V1x, V1y, V2x, V2y.
  unfold getTforX, getTforY.
  split; apply _getTForCoordinate_converges; assumption.
Qed.

Lemma getTfor_converges_witness :
  (exists n t,
     (forall fuel, (n <= fuel)%nat ->
        getTforX (mkCurve (1 # 4) (1 # 10) (1 # 4) 1) (1 # 2) (1 # 100) fuel
        = Some (Ok t)) /\
     Qabs (_getCoordinateForT t (1 # 4) (1 # 4) - (1 # 2)) < 1 # 100) /\
  (exists n t,
     (forall fuel, (n <= fuel)%nat ->
        getTforY (mkCurve (1 # 4) (1 # 10) (1 # 4) 1) (1 # 2) (1 # 100) fuel
        = Some (Ok t)) /\
     Qabs (_getCoordinateForT t (1 # 10) 1 - (1 # 2)) < 1 # 100).
Proof.
  refine (getTfor_converges (mkCurve (1 # 4) (1 # 10) (1 # 4) 1)
            (1 # 2) (1 # 100) _ _ eq_refl).
  - repeat split; reflexivity.
  - split; unfold Qle; simpl; lia.
Defined.

End ExactCurve.
